(** * json-rules-engine: the [Rule] class (src/rule.js)

    A shallow embedding of [Rule]: its configuration setters, the priority
    grouping of sibling conditions and the prioritized, short-circuiting
    evaluation of a condition tree against a fact provider.

    Promises are modelled by what they settle to together with the list of
    provider calls their computation initiates ([Comp]); [then] is the
    sequencing of such computations and [Promise.all] starts every member. *)

From Stdlib Require Import String Ascii ZArith Bool Lia List Permutation Sorted.

#[local] Set Warnings "-register-all".
Import ListNotations.

Local Open Scope Z_scope.
Local Open Scope list_scope.

(** ** JavaScript values *)

(** The values that flow through [Rule]: fact values, comparison results,
    priorities.  [VNum z] is an integral number, [VNaN] the number NaN.  A
    string is a sequence of code units below 256.  Numbers are exact up to
    2^53; beyond that a [VNum] stands for the double nearest to it. *)
Inductive Value : Type :=
| VUndefined
| VNull
| VBool (b : bool)
| VNum (z : Z)
| VNaN
| VStr (s : string).

(** [v === true] *)
Definition strict_true (v : Value) : bool :=
  match v with VBool true => true | _ => false end.

(** [v === false] *)
Definition strict_false (v : Value) : bool :=
  match v with VBool false => true | _ => false end.

(** ToBoolean *)
Definition truthy (v : Value) : bool :=
  match v with
  | VUndefined | VNull | VNaN => false
  | VBool b => b
  | VNum z => negb (z =? 0)
  | VStr s => match s with EmptyString => false | _ => true end
  end.

(** [a || b] on values *)
Definition js_or (a b : Value) : Value := if truthy a then a else b.

(** [v <= 0] (the abstract relational comparison against the number 0, for
    the values [parseInt] returns) *)
Definition le_zero (v : Value) : bool :=
  match v with VNum z => z <=? 0 | _ => false end.

(** *** [parseInt(_, 10)] *)

(** white space and line terminators among the code units below 256: TAB,
    LF, VT, FF, CR, SP and NBSP *)
Definition is_whitespace (c : ascii) : bool :=
  let n := nat_of_ascii c in
  (Nat.eqb n 9 || Nat.eqb n 10 || Nat.eqb n 11 || Nat.eqb n 12
   || Nat.eqb n 13 || Nat.eqb n 32 || Nat.eqb n 160)%bool.

Fixpoint trim_start (s : string) : string :=
  match s with
  | String c s' => if is_whitespace c then trim_start s' else s
  | EmptyString => EmptyString
  end.

Definition digit_of (c : ascii) : option Z :=
  let n := Z.of_nat (nat_of_ascii c) in
  if ((48 <=? n) && (n <=? 57))%bool then Some (n - 48) else None.

(** reads the longest prefix of decimal digits; [acc] is [None] until a
    digit has been read *)
Fixpoint read_digits (s : string) (acc : option Z) : option Z :=
  match s with
  | String c s' =>
      match digit_of c with
      | Some d =>
          read_digits s' (Some (10 * (match acc with Some a => a | None => 0 end) + d))
      | None => acc
      end
  | EmptyString => acc
  end.

Definition parseInt_string (s : string) : Value :=
  let s := trim_start s in
  let '(sign, s) :=
    match s with
    | String "-"%char r => (-1, r)
    | String "+"%char r => (1, r)
    | _ => (1, s)
    end in
  match read_digits s None with
  | Some n => VNum (sign * n)
  | None => VNaN
  end.

(** the first decimal digit of a positive integer *)
Fixpoint leading_digit_from (fuel : nat) (z : Z) : Z :=
  match fuel with
  | O => z
  | S fuel => if z <? 10 then z else leading_digit_from fuel (z / 10)
  end.

Definition leading_digit (z : Z) : Z :=
  leading_digit_from (S (Z.to_nat (Z.log2 z))) z.

(** [parseInt(v, 10)]: the argument is converted to a string and its leading
    integer numeral is read.  The numerals of [undefined], [null], the
    booleans and NaN start with no digit.  A number below 10^21 in magnitude
    has its decimal numeral as its string; from 10^21 on the string is in
    exponent form, [d.ddd...e+NN], of which the digit [d] is all that is read
    (taken here as the first digit of the number).  The result is exact up
    to 2^53. *)
Definition parseInt (v : Value) : Value :=
  match v with
  | VNum z =>
      if Z.abs z <? 10 ^ 21 then VNum z
      else VNum (Z.sgn z * leading_digit (Z.abs z))
  | VStr s => parseInt_string s
  | _ => VNaN
  end.

(** ** Errors, results and computations *)

Inductive Error : Type :=
| PriorityError                 (* Error('Priority must be greater than zero') *)
| ConditionsRootError           (* Error('"conditions" root must contain ...') *)
| UndefinedFact (fact : Value)  (* Error(`Undefined fact: ${condition.fact}`) *)
| TypeError                     (* property access on undefined *)
| External (reason : Value)     (* raised by the fact provider or the condition model *)
| FuelExhausted.                (* recursion bound of the embedding, see [evaluate_fuel] *)

Inductive Result (A : Type) : Type :=
| Ok (a : A)
| Err (e : Error).
Arguments Ok {A} a.
Arguments Err {A} e.

(** Calls made to the fact provider ([this.engine]). *)
Inductive Event : Type :=
| GetFact (fact : Value)                     (* engine.getFact(fact) *)
| FactValue (fact : Value) (params : Value). (* engine.factValue(fact, params) *)

Definition is_lookup (ev : Event) : bool :=
  match ev with FactValue _ _ => true | GetFact _ => false end.

(** A computation: what it settles to and the provider calls it initiated. *)
Record Comp (A : Type) : Type := mkComp {
  result : Result A;
  trace : list Event
}.
Arguments mkComp {A} result trace.
Arguments result {A} c.
Arguments trace {A} c.

Definition ret {A} (a : A) : Comp A := mkComp (Ok a) [].
Definition throw {A} (e : Error) : Comp A := mkComp (Err e) [].
Definition lift {A} (r : Result A) : Comp A := mkComp r [].

(** [m.then(f)], and the sequencing of an [await]: [f] runs only when [m]
    fulfils; a rejection passes through. *)
Definition bind {A B} (m : Comp A) (f : A -> Comp B) : Comp B :=
  match result m with
  | Ok a => let n := f a in mkComp (result n) (trace m ++ trace n)
  | Err e => mkComp (Err e) (trace m)
  end.

Notation "x <- m ;; k" := (bind m (fun x => k))
  (at level 61, m at next level, right associativity).

(** [Promise.resolve(v)] *)
Definition Promise_resolve {A} (v : A) : Comp A := ret v.

Fixpoint all_results {A} (l : list (Result A)) : Result (list A) :=
  match l with
  | [] => Ok []
  | Ok a :: l' =>
      match all_results l' with Ok r => Ok (a :: r) | Err e => Err e end
  | Err e :: _ => Err e
  end.

(** [Promise.all(ps)]: every member has been started; it fulfils with the
    members' values in order, and rejects when a member rejects (the
    rejection reported is that of the first rejecting member of the array).
    The calls of the members interleave at run time; the trace lists them
    member by member, and the properties below depend on which calls are
    made, not on their order within a group. *)
Definition Promise_all {A} (ps : list (Comp A)) : Comp (list A) :=
  mkComp (all_results (map result ps)) (List.concat (map trace ps)).

(** [conditions.reduce(f, init)] for a callback that may throw *)
Fixpoint reduce {A B} (f : B -> A -> Comp B) (l : list A) (init : B) : Comp B :=
  match l with
  | [] => ret init
  | x :: l' => acc <- f init x ;; reduce f l' acc
  end.

(** ** The collaborators: conditions, facts, the engine *)

Inductive BoolOp : Type := All | Any.

(** A [Condition] (condition.js): a leaf or a boolean-operator node.
    [priority] is [None] when the property is undefined (or NaN, which is
    falsy too). *)
Inductive Condition : Type :=
| Leaf (fact : string) (params : Value) (operator : string) (value : Value)
       (priority : option Z)
| Node (operator : BoolOp) (conditions : list Condition) (priority : option Z).

Definition isBooleanOperator (c : Condition) : bool :=
  match c with Node _ _ _ => true | Leaf _ _ _ _ _ => false end.

Definition condition_priority (c : Condition) : option Z :=
  match c with Leaf _ _ _ _ p => p | Node _ _ p => p end.

(** [condition.fact]; a boolean node has none *)
Definition condition_fact (c : Condition) : Value :=
  match c with Leaf f _ _ _ _ => VStr f | Node _ _ _ => VUndefined end.

Record Fact : Type := mkFact { fact_priority : Z }.

(** The engine, as far as [Rule] uses it. *)
Record Engine : Type := mkEngine {
  getFact : Value -> option Fact;
  factValue : Value -> Value -> Result Value
}.

(** ** The rule object *)

Definition Object := list (string * Value).

Record Rule : Type := mkRule {
  priority : Value;
  conditions : option Condition;
  event : Object;
  engine : option Engine
}.

(** the object before the constructor body has run *)
Definition new_Rule : Rule := mkRule VUndefined None [] None.

(** [params(event).only(keys)] *)
Definition only (keys : list string) (o : Object) : Object :=
  filter (fun kv => existsb (String.eqb (fst kv)) keys) o.

Section Configuration.

(** The raw condition tree handed to [setConditions] and the [Condition]
    constructor applied to it belong to condition.js. *)
Variable RawConditions : Type.
Variable hasOwnProperty : RawConditions -> string -> bool.
Variable newCondition : RawConditions -> Result Condition.

Record Options : Type := mkOptions {
  opt_conditions : option RawConditions;
  opt_priority : Value;
  opt_event : option Object
}.

Variable JSON_parse : string -> Result (option Options).

Definition setPriority (this : Rule) (priority : Value) : Result Rule :=
  let priority := parseInt priority in
  if le_zero priority then Err PriorityError
  else Ok (mkRule priority (conditions this) (event this) (engine this)).

Definition setConditions (this : Rule) (conds : RawConditions) : Result Rule :=
  if (negb (hasOwnProperty conds "all") && negb (hasOwnProperty conds "any"))%bool
  then Err ConditionsRootError
  else
    match newCondition conds with
    | Ok c => Ok (mkRule (priority this) (Some c) (event this) (engine this))
    | Err e => Err e
    end.

(** [event] is an object, or [None] for [undefined] and [null], of which
    [params] can make nothing *)
Definition setEvent (this : Rule) (ev : option Object) : Result Rule :=
  match ev with
  | Some ev =>
      Ok (mkRule (priority this) (conditions this)
                 (only ["type"; "params"]%string ev) (engine this))
  | None => Err TypeError
  end.

Definition setEngine (this : Rule) (e : Engine) : Rule :=
  mkRule (priority this) (conditions this) (event this) (Some e).

Definition rbind {A B} (r : Result A) (f : A -> Result B) : Result B :=
  match r with Ok a => f a | Err e => Err e end.

(** [new Rule(options)]; [options] is a JSON text or an options object
    (possibly undefined). *)
Definition constructor (options : string + option Options) : Result Rule :=
  rbind (match options with
         | inl text => JSON_parse text
         | inr o => Ok o
         end) (fun options =>
  rbind (match options with
         | Some o =>
             match opt_conditions o with
             | Some c => setConditions new_Rule c
             | None => Ok new_Rule
             end
         | None => Ok new_Rule
         end) (fun this =>
  let priority :=
    js_or (match options with Some o => opt_priority o | None => VUndefined end)
          (VNum 1) in
  rbind (setPriority this priority) (fun this =>
  let event :=
    match options with
    | Some o => match opt_event o with
                | Some e => e
                | None => [("type", VStr "unknown")]%string
                end
    | None => [("type", VStr "unknown")]%string
    end in
  setEvent this (Some event)))).

End Configuration.

Arguments mkOptions {RawConditions} opt_conditions opt_priority opt_event.
Arguments opt_conditions {RawConditions} o.
Arguments opt_priority {RawConditions} o.
Arguments opt_event {RawConditions} o.
Arguments setConditions {RawConditions} hasOwnProperty newCondition this conds.
Arguments constructor {RawConditions} hasOwnProperty newCondition JSON_parse options.

(** ** Evaluation *)

(** *** The object [sets] of [prioritizeConditions]

    Its own properties, in creation order; the keys are the priorities
    (property keys are their decimal numerals, which [Number] reads back). *)
Definition Sets := list (Z * list Condition).

(** [sets[k]] *)
Fixpoint sets_get (sets : Sets) (k : Z) : option (list Condition) :=
  match sets with
  | [] => None
  | (k', v) :: rest => if k' =? k then Some v else sets_get rest k
  end.

(** [sets[k] = v] *)
Fixpoint sets_set (sets : Sets) (k : Z) (v : list Condition) : Sets :=
  match sets with
  | [] => [(k, v)]
  | (k', v') :: rest =>
      if k' =? k then (k', v) :: rest else (k', v') :: sets_set rest k v
  end.

(** the array stored under an own key *)
Definition sets_at (sets : Sets) (k : Z) : list Condition :=
  match sets_get sets k with Some v => v | None => [] end.

(** [Array.prototype.sort(cmp)], as an insertion sort driven by [cmp] *)
Fixpoint insert_by (cmp : Z -> Z -> Z) (x : Z) (l : list Z) : list Z :=
  match l with
  | [] => [x]
  | y :: l' => if cmp x y <? 0 then x :: l else y :: insert_by cmp x l'
  end.

Definition Array_sort (cmp : Z -> Z -> Z) (l : list Z) : list Z :=
  fold_right (insert_by cmp) [] l.

(** array indices are the keys 0 .. 2^32 - 2 *)
Definition is_index (k : Z) : bool := ((0 <=? k) && (k <? 2 ^ 32 - 1))%bool.

(** [Object.keys(sets)]: array-index keys in ascending order, then the other
    keys in creation order *)
Definition Object_keys (sets : Sets) : list Z :=
  let ks := map fst sets in
  Array_sort (fun a b => if a <? b then -1 else 1) (filter is_index ks)
  ++ filter (fun k => negb (is_index k)) ks.

Definition Array_every (f : Value -> bool) (l : list Value) : bool := forallb f l.
Definition Array_some (f : Value -> bool) (l : list Value) : bool := existsb f l.

Definition is_all (o : BoolOp) : bool := match o with All => true | Any => false end.
Definition is_any (o : BoolOp) : bool := match o with Any => true | All => false end.

Section Evaluation.

(** [condition.evaluate(comparisonValue)], of condition.js *)
Variable condition_evaluate : Condition -> Value -> Result Value.

Variable this : Rule.

(** [this.engine.getFact(fact)] *)
Definition engine_getFact (fact : Value) : Comp (option Fact) :=
  match engine this with
  | Some e => mkComp (Ok (getFact e fact)) [GetFact fact]
  | None => throw TypeError
  end.

(** [this.engine.factValue(fact, params)] *)
Definition engine_factValue (fact params : Value) : Comp Value :=
  match engine this with
  | Some e => mkComp (factValue e fact params) [FactValue fact params]
  | None => throw TypeError
  end.

Definition prioritizeConditions (conditions : list Condition)
  : Comp (list (list Condition)) :=
  factSets <- reduce (fun sets condition =>
    let from_fact :=
      fact <- engine_getFact (condition_fact condition) ;;
      match fact with
      | None => throw (UndefinedFact (condition_fact condition))
      | Some fact => ret (fact_priority fact)
      end in
    priority <- match condition_priority condition with
                | Some p => if p =? 0 then from_fact else ret p
                | None => from_fact
                end ;;
    let sets :=
      match sets_get sets priority with
      | None => sets_set sets priority []
      | Some _ => sets
      end in
    ret (sets_set sets priority (sets_at sets priority ++ [condition])))
    conditions [] ;;
  ret (map (fun priority => sets_at factSets priority)
           (Array_sort (fun a b => if a >? b then -1 else 1)
                       (Object_keys factSets))).

Section Driver.

(** the method [this.evaluateCondition], called back on the members of
    a group *)
Variable this_evaluateCondition : Condition -> Comp Value.

(** [conditions] is always an array here (a set of [orderedSets]), so the
    wrapping of a non-array into a singleton does not arise. *)
Definition evaluateConditions (conditions : list Condition)
    (method : (Value -> bool) -> list Value -> bool) : Comp Value :=
  conditionResults <- Promise_all (map (fun condition =>
      this_evaluateCondition condition) conditions) ;;
  ret (VBool (method (fun result => strict_true result) conditionResults)).

Definition prioritizeAndRun (conditions : list Condition) (operator : BoolOp)
  : Comp Value :=
  let method := if is_all operator then Array_every else Array_some in
  orderedSets <- prioritizeConditions conditions ;;
  let cursor := Promise_resolve VUndefined in
  fold_left (fun cursor set =>
    let stop := false in
    setResult <- cursor ;;
    if (is_any operator && strict_true setResult || stop)%bool then
      ret (VBool true)
    else if (is_all operator && strict_false setResult || stop)%bool then
      ret (VBool false)
    else evaluateConditions set method) orderedSets cursor.

Definition any (conditions : list Condition) : Comp Value :=
  prioritizeAndRun conditions Any.

Definition all (conditions : list Condition) : Comp Value :=
  prioritizeAndRun conditions All.

End Driver.

(** [evaluateCondition], with a bound on the nesting of boolean nodes it
    descends through *)
Fixpoint evaluateConditionN (fuel : nat) (condition : Condition) : Comp Value :=
  match fuel with
  | O => throw FuelExhausted
  | S fuel =>
      comparisonValue <-
        match condition with
        | Node operator subConditions _ =>
            match operator with
            | All => all (evaluateConditionN fuel) subConditions
            | Any => any (evaluateConditionN fuel) subConditions
            end
        | Leaf fact params _ _ _ => engine_factValue (VStr fact) params
        end ;;
      lift (condition_evaluate condition comparisonValue)
  end.

Fixpoint depth (c : Condition) : nat :=
  match c with
  | Leaf _ _ _ _ _ => O
  | Node _ cs _ => S (list_max (map depth cs))
  end.

Definition evaluateCondition (condition : Condition) : Comp Value :=
  evaluateConditionN (S (depth condition)) condition.

Definition evaluate : Comp Value :=
  match conditions this with
  | Some (Node Any cs _) => any evaluateCondition cs
  | Some (Node All cs _) => all evaluateCondition cs
  | _ => throw TypeError
  end.

End Evaluation.

(** ** Evaluation against a provider that has state

    The engine of a rule is an object of its own: answering a call can
    change it (a cache, a counter).  Here the provider carries a state that
    every call may update, and the evaluation threads it through the calls in
    the order it makes them.  The rule itself is only read: no method on the
    evaluation path assigns to a field of [this]. *)

Module Stateful.
Section Provider.

Context {St : Type}.

Record Provider : Type := mkProvider {
  provider_getFact : St -> Value -> option Fact * St;
  provider_factValue : St -> Value -> Value -> Result Value * St
}.

(** a computation that runs from a state of the provider and leaves one *)
Definition Run (A : Type) : Type := St -> Comp A * St.

Definition run_ret {A} (a : A) : Run A := fun s => (ret a, s).
Definition run_throw {A} (e : Error) : Run A := fun s => (throw e, s).
Definition run_lift {A} (r : Result A) : Run A := fun s => (lift r, s).

Definition run_bind {A B} (m : Run A) (f : A -> Run B) : Run B :=
  fun s =>
    let (c, s1) := m s in
    match result c with
    | Ok a => let (d, s2) := f a s1 in (mkComp (result d) (trace c ++ trace d), s2)
    | Err e => (mkComp (Err e) (trace c), s1)
    end.

Fixpoint run_reduce {A B} (f : B -> A -> Run B) (l : list A) (init : B) : Run B :=
  match l with
  | [] => run_ret init
  | x :: l' => run_bind (f init x) (fun acc => run_reduce f l' acc)
  end.

(** every member is started, one after the other *)
Fixpoint start_all {A} (ps : list (Run A)) (s : St) : list (Comp A) * St :=
  match ps with
  | [] => ([], s)
  | p :: ps' =>
      let (c, s1) := p s in
      let (cs, s2) := start_all ps' s1 in
      (c :: cs, s2)
  end.

Definition run_Promise_all {A} (ps : list (Run A)) : Run (list A) :=
  fun s => let (cs, s') := start_all ps s in (Promise_all cs, s').

Variable condition_evaluate : Condition -> Value -> Result Value.

(** [this.engine] *)
Variable provider : Provider.

Definition engine_getFact (fact : Value) : Run (option Fact) :=
  fun s =>
    let (found, s') := provider_getFact provider s fact in
    (mkComp (Ok found) [GetFact fact], s').

Definition engine_factValue (fact params : Value) : Run Value :=
  fun s =>
    let (r, s') := provider_factValue provider s fact params in
    (mkComp r [FactValue fact params], s').

Definition prioritizeConditions (conditions : list Condition)
  : Run (list (list Condition)) :=
  run_bind (run_reduce (fun sets condition =>
    let from_fact :=
      run_bind (engine_getFact (condition_fact condition)) (fun fact =>
      match fact with
      | None => run_throw (UndefinedFact (condition_fact condition))
      | Some fact => run_ret (fact_priority fact)
      end) in
    run_bind (match condition_priority condition with
              | Some p => if p =? 0 then from_fact else run_ret p
              | None => from_fact
              end) (fun priority =>
    let sets :=
      match sets_get sets priority with
      | None => sets_set sets priority []
      | Some _ => sets
      end in
    run_ret (sets_set sets priority (sets_at sets priority ++ [condition]))))
    conditions []) (fun factSets =>
  run_ret (map (fun priority => sets_at factSets priority)
               (Array_sort (fun a b => if a >? b then -1 else 1)
                           (Object_keys factSets)))).

Section Driver.

Variable this_evaluateCondition : Condition -> Run Value.

Definition evaluateConditions (conditions : list Condition)
    (method : (Value -> bool) -> list Value -> bool) : Run Value :=
  run_bind (run_Promise_all (map (fun condition =>
      this_evaluateCondition condition) conditions)) (fun conditionResults =>
  run_ret (VBool (method (fun result => strict_true result) conditionResults))).

Definition prioritizeAndRun (conditions : list Condition) (operator : BoolOp)
  : Run Value :=
  let method := if is_all operator then Array_every else Array_some in
  run_bind (prioritizeConditions conditions) (fun orderedSets =>
  let cursor := run_ret VUndefined in
  fold_left (fun cursor set =>
    let stop := false in
    run_bind cursor (fun setResult =>
    if (is_any operator && strict_true setResult || stop)%bool then
      run_ret (VBool true)
    else if (is_all operator && strict_false setResult || stop)%bool then
      run_ret (VBool false)
    else evaluateConditions set method)) orderedSets cursor).

Definition any (conditions : list Condition) : Run Value :=
  prioritizeAndRun conditions Any.

Definition all (conditions : list Condition) : Run Value :=
  prioritizeAndRun conditions All.

End Driver.

Fixpoint evaluateConditionN (fuel : nat) (condition : Condition) : Run Value :=
  match fuel with
  | O => run_throw FuelExhausted
  | S fuel =>
      run_bind
        match condition with
        | Node operator subConditions _ =>
            match operator with
            | All => all (evaluateConditionN fuel) subConditions
            | Any => any (evaluateConditionN fuel) subConditions
            end
        | Leaf fact params _ _ _ => engine_factValue (VStr fact) params
        end (fun comparisonValue =>
      run_lift (condition_evaluate condition comparisonValue))
  end.

Definition evaluateCondition (condition : Condition) : Run Value :=
  evaluateConditionN (S (depth condition)) condition.

Definition evaluate (this : Rule) : Run Value :=
  match conditions this with
  | Some (Node Any cs _) => any evaluateCondition cs
  | Some (Node All cs _) => all evaluateCondition cs
  | _ => run_throw TypeError
  end.

(** what the provider answers in state [s], as an engine without state *)
Definition answers (s : St) : Engine :=
  mkEngine (fun fact => fst (provider_getFact provider s fact))
           (fun fact params => fst (provider_factValue provider s fact params)).

(** [m] settles as [c] does, whatever the state it runs from *)
Definition settles_as {A} (m : Run A) (c : Comp A) : Prop :=
  forall s, fst (m s) = c.

End Provider.

Arguments Provider St : clear implicits.

End Stateful.

(** ** Notions used to state the properties *)

(** The priority under which [prioritizeConditions] files a condition: its
    own priority when that is truthy, its fact's priority otherwise; [None]
    when the fact is then not registered. *)
Definition effectivePriority (e : Engine) (c : Condition) : option Z :=
  let from_fact := option_map fact_priority (getFact e (condition_fact c)) in
  match condition_priority c with
  | Some p => if p =? 0 then from_fact else Some p
  | None => from_fact
  end.

(** The priority of a condition read as "its own priority if present,
    otherwise its fact's registered priority". *)
Definition ownOrFactPriority (e : Engine) (c : Condition) : option Z :=
  match condition_priority c with
  | Some p => Some p
  | None => option_map fact_priority (getFact e (condition_fact c))
  end.

Definition has_priority (prio : Condition -> option Z) (k : Z) (c : Condition)
  : bool :=
  match prio c with Some p => p =? k | None => false end.

Definition descending (a b : Z) : Prop := b < a.

(** [groups] is the partition of [conds] by [prio]: one group per priority
    that occurs, the groups by strictly descending priority, each group
    listing its conditions in the order they have in [conds]. *)
Definition grouped_by (prio : Condition -> option Z) (conds : list Condition)
    (groups : list (list Condition)) : Prop :=
  exists keys,
    groups = map (fun k => filter (has_priority prio k) conds) keys
    /\ StronglySorted descending keys
    /\ forall k, In k keys <-> exists c, In c conds /\ prio c = Some k.

(** The body of the [reduce] callback of [prioritizeConditions], in two
    parts: the priority of a condition, and its filing under that priority. *)
Definition priority_of (this : Rule) (condition : Condition) : Comp Z :=
  let from_fact :=
    fact <- engine_getFact this (condition_fact condition) ;;
    match fact with
    | None => throw (UndefinedFact (condition_fact condition))
    | Some fact => ret (fact_priority fact)
    end in
  match condition_priority condition with
  | Some p => if p =? 0 then from_fact else ret p
  | None => from_fact
  end.

Definition sets_push (sets : Sets) (priority : Z) (condition : Condition) : Sets :=
  let sets :=
    match sets_get sets priority with
    | None => sets_set sets priority []
    | Some _ => sets
    end in
  sets_set sets priority (sets_at sets priority ++ [condition]).

Definition method_of (operator : BoolOp) : (Value -> bool) -> list Value -> bool :=
  if is_all operator then Array_every else Array_some.

(** The callback chained on [cursor] for one set by [prioritizeAndRun]. *)
Definition group_step (ev : Condition -> Comp Value) (operator : BoolOp)
    (cursor : Comp Value) (set : list Condition) : Comp Value :=
  let stop := false in
  setResult <- cursor ;;
  if (is_any operator && strict_true setResult || stop)%bool then
    ret (VBool true)
  else if (is_all operator && strict_false setResult || stop)%bool then
    ret (VBool false)
  else evaluateConditions ev set (method_of operator).

(** [s] files exactly the conditions of [done], each under its priority. *)
Definition filed (prio : Condition -> option Z) (done : list Condition)
    (s : Sets) : Prop :=
  NoDup (map fst s)
  /\ forall k, sets_get s k =
               if existsb (has_priority prio k) done
               then Some (filter (has_priority prio k) done) else None.

(** Every array of [s] holds conditions of [done] only. *)
Definition within (done : list Condition) (s : Sets) : Prop :=
  forall k v, sets_get s k = Some v -> incl v done.

(** The group result that decides the operator ([true] for [any], [false]
    for [all]), and the one that lets the next group run. *)
Definition decisive (operator : BoolOp) : Value := VBool (is_any operator).
Definition undecided (operator : BoolOp) : Value := VBool (is_all operator).

(** whether the callback of the next set evaluates it, given the result the
    cursor fulfilled with *)
Definition continuing (operator : BoolOp) (setResult : Value) : bool :=
  (negb (is_any operator && strict_true setResult)
   && negb (is_all operator && strict_false setResult))%bool.

(** whether the evaluation of a condition produced the boolean [true] *)
Definition satisfied (ev : Condition -> Comp Value) (c : Condition) : bool :=
  match result (ev c) with Ok v => strict_true v | Err _ => false end.

(** "every" under [all], "some" under [any] *)
Definition combine (operator : BoolOp) (f : Condition -> bool)
    (l : list Condition) : bool :=
  if is_all operator then forallb f l else existsb f l.

(** ** A sample configuration *)

(** A comparison evaluator of the kind the condition model provides:
    [equal] on leaves, and [comparisonValue === true] on boolean nodes. *)
Definition sample_evaluate (c : Condition) (v : Value) : Result Value :=
  match c with
  | Node _ _ _ => Ok (VBool (strict_true v))
  | Leaf _ _ _ expected _ =>
      match v, expected with
      | VNum a, VNum b => Ok (VBool (a =? b))
      | _, _ => Ok (VBool false)
      end
  end.

(** An evaluator that hands the fact value back as the condition result. *)
Definition identity_evaluate (c : Condition) (v : Value) : Result Value := Ok v.

(** Facts [a] = 1 and [b] = 2 at priority 10, [c] = 3 at priority 1. *)
Definition sample_engine : Engine :=
  mkEngine
    (fun fact =>
       match fact with
       | VStr "a" | VStr "b" => Some (mkFact 10)
       | VStr "c" => Some (mkFact 1)
       | _ => None
       end)%string
    (fun fact _ =>
       match fact with
       | VStr "a" => Ok (VNum 1)
       | VStr "b" => Ok (VNum 2)
       | VStr "c" => Ok (VNum 3)
       | _ => Err (External (VStr "no such fact"))
       end)%string.

Definition sample_rule : Rule :=
  mkRule (VNum 1) None [("type", VStr "unknown")]%string (Some sample_engine).

Definition equal (fact : string) (n : Z) (priority : option Z) : Condition :=
  Leaf fact VUndefined "equal" (VNum n) priority.

(** The rule over the tree [{all: [{any: [A, B]}, C]}]. *)
Definition nested_rule (A B C : Condition) : Rule :=
  mkRule (VNum 1) (Some (Node All [Node Any [A; B] (Some 1); C] (Some 1)))
         [("type", VStr "unknown")]%string (Some sample_engine).

(** An evaluator that inverts the nested result on boolean nodes. *)
Definition negating_evaluate (c : Condition) (v : Value) : Result Value :=
  match c with
  | Node _ _ _ => Ok (VBool (negb (strict_true v)))
  | Leaf _ _ _ _ _ => sample_evaluate c v
  end.

(** ** Further notions *)

(** What the priority of a rule can be once [setPriority] has accepted it:
    NaN, or an integer from 1 on. *)
Definition valid_priority (v : Value) : Prop :=
  v = VNaN \/ exists z, v = VNum z /\ 1 <= z.

(** A priority that [parseInt] reads back exactly: NaN, or an integer up
    to 2^53. *)
Definition safe_priority (v : Value) : Prop :=
  v = VNaN \/ exists z, v = VNum z /\ z <= 2 ^ 53.

(** The [getFact] call the grouping makes for a condition: one when its own
    priority is falsy, none otherwise. *)
Definition grouping_call (c : Condition) : list Event :=
  match condition_priority c with
  | Some p => if p =? 0 then [GetFact (condition_fact c)] else []
  | None => [GetFact (condition_fact c)]
  end.

Definition grouping_calls (conds : list Condition) : list Event :=
  flat_map grouping_call conds.

(** The boolean a condition tree denotes, given the truth of its leaves. *)
Fixpoint truth (leaf : Condition -> bool) (c : Condition) : bool :=
  match c with
  | Leaf _ _ _ _ _ => leaf c
  | Node All cs _ => forallb (truth leaf) cs
  | Node Any cs _ => existsb (truth leaf) cs
  end.

(** A tree that evaluates without failure: every leaf evaluates to the
    boolean [leaf] gives it, every boolean node has children, all of them
    with a priority to be filed under, and the node's evaluator hands a
    boolean back unchanged. *)
Fixpoint sound_tree (cev : Condition -> Value -> Result Value) (this : Rule)
    (e : Engine) (leaf : Condition -> bool) (c : Condition) : Prop :=
  match c with
  | Leaf _ _ _ _ _ => result (evaluateCondition cev this c) = Ok (VBool (leaf c))
  | Node _ cs _ =>
      cs <> []
      /\ (forall b : bool, cev c (VBool b) = Ok (VBool b))
      /\ fold_right (fun c' rest =>
                       (effectivePriority e c' <> None
                        /\ sound_tree cev this e leaf c') /\ rest) True cs
  end.

(** A stand-in for the condition model, for the samples: the raw tree is
    the condition itself. *)
Definition sample_hasOwnProperty (raw : Condition) (key : string) : bool :=
  match raw with
  | Node All _ _ => String.eqb key "all"
  | Node Any _ _ => String.eqb key "any"
  | Leaf _ _ _ _ _ => false
  end.

Definition sample_newCondition (raw : Condition) : Result Condition := Ok raw.

Definition sample_JSON_parse (text : string) : Result (option (Options Condition)) :=
  Err (External (VStr "SyntaxError")).

(** A tree three levels deep over the sample facts, and the rule on it. *)
Definition sample_tree : Condition :=
  Node All
    [Node Any [equal "a" 0 None;
               Node All [equal "b" 2 None; equal "c" 3 (Some 7)] (Some 2)]
          (Some 1);
     equal "c" 3 None]
    None.

Definition sample_tree_rule : Rule :=
  mkRule (VNum 1) (Some sample_tree) [("type", VStr "unknown")]%string
         (Some sample_engine).

(** The sample facts behind a provider that counts the calls it has
    answered. *)
Definition counting_provider : Stateful.Provider nat :=
  Stateful.mkProvider
    (fun calls fact => (getFact sample_engine fact, S calls))
    (fun calls fact params => (factValue sample_engine fact params, S calls)).

(** * Properties *)

(** ** Computations *)

Lemma comp_eta {A} (c : Comp A) : c = mkComp (result c) (trace c).
Proof. destruct c; reflexivity. Qed.

Lemma result_bind_ok {A B} (m : Comp A) (f : A -> Comp B) a :
  result m = Ok a -> bind m f = mkComp (result (f a)) (trace m ++ trace (f a)).
Proof. intros H; unfold bind; rewrite H; reflexivity. Qed.

Lemma result_bind_err {A B} (m : Comp A) (f : A -> Comp B) e :
  result m = Err e -> bind m f = mkComp (Err e) (trace m).
Proof. intros H; unfold bind; rewrite H; reflexivity. Qed.

Lemma trace_bind_incl {A B} (m : Comp A) (f : A -> Comp B) :
  incl (trace m) (trace (bind m f)).
Proof.
  unfold bind; destruct (result m); simpl.
  - apply incl_appl, incl_refl.
  - apply incl_refl.
Qed.

Lemma all_results_ok {A} (l : list (Result A)) (vs : list A) :
  l = map Ok vs -> all_results l = Ok vs.
Proof.
  intros ->; induction vs as [|v vs IH]; simpl; [reflexivity|].
  rewrite IH; reflexivity.
Qed.

Lemma all_results_inv {A} (l : list (Result A)) (vs : list A) :
  all_results l = Ok vs -> l = map Ok vs.
Proof.
  revert vs; induction l as [|r l IH]; intros vs H; simpl in H.
  - injection H as <-; reflexivity.
  - destruct r as [a|e]; [|discriminate].
    destruct (all_results l) as [r'|e] eqn:E; [|discriminate].
    injection H as <-; simpl; rewrite (IH r' eq_refl); reflexivity.
Qed.

(** ** The object [sets] *)

Lemma sets_get_set_same (s : Sets) k v : sets_get (sets_set s k v) k = Some v.
Proof.
  induction s as [|[k' v'] s IH]; simpl.
  - rewrite Z.eqb_refl; reflexivity.
  - destruct (k' =? k) eqn:E; simpl; rewrite E; [reflexivity | exact IH].
Qed.

Lemma sets_get_set_other (s : Sets) k v k' :
  k' <> k -> sets_get (sets_set s k v) k' = sets_get s k'.
Proof.
  intros Hne; induction s as [|[k0 v0] s IH]; simpl.
  - destruct (k =? k') eqn:E; [apply Z.eqb_eq in E; congruence | reflexivity].
  - destruct (k0 =? k) eqn:E; simpl.
    + apply Z.eqb_eq in E; subst k0.
      destruct (k =? k') eqn:E'; [apply Z.eqb_eq in E'; congruence | reflexivity].
    + destruct (k0 =? k'); [reflexivity | exact IH].
Qed.

Lemma sets_get_keys (s : Sets) k :
  In k (map fst s) <-> sets_get s k <> None.
Proof.
  induction s as [|[k' v'] s IH]; simpl.
  - split; [tauto | congruence].
  - destruct (k' =? k) eqn:E.
    + apply Z.eqb_eq in E; split; [congruence | auto].
    + apply Z.eqb_neq in E; rewrite <- IH; split; [intros [H|H]; [congruence|exact H] | auto].
Qed.

Lemma sets_set_keys (s : Sets) k v :
  map fst (sets_set s k v) =
  match sets_get s k with Some _ => map fst s | None => map fst s ++ [k] end.
Proof.
  induction s as [|[k' v'] s IH]; simpl; [reflexivity|].
  destruct (k' =? k) eqn:E; simpl; [reflexivity|].
  rewrite IH; destruct (sets_get s k); reflexivity.
Qed.

Lemma sets_set_NoDup (s : Sets) k v :
  NoDup (map fst s) -> NoDup (map fst (sets_set s k v)).
Proof.
  intros H; rewrite sets_set_keys.
  destruct (sets_get s k) eqn:E; [exact H|].
  apply NoDup_app; [exact H | repeat constructor; simpl; tauto |].
  intros x Hx [<-|[]]. apply sets_get_keys in Hx; congruence.
Qed.

(** ** Sorting *)

Lemma insert_by_perm cmp x l : Permutation (insert_by cmp x l) (x :: l).
Proof.
  induction l as [|y l IH]; simpl; [reflexivity|].
  destruct (cmp x y <? 0); [reflexivity|].
  rewrite IH; apply perm_swap.
Qed.

Lemma Array_sort_perm cmp l : Permutation (Array_sort cmp l) l.
Proof.
  induction l as [|x l IH]; simpl; [reflexivity|].
  rewrite insert_by_perm; constructor; exact IH.
Qed.

Lemma insert_by_desc x l :
  ~ In x l ->
  StronglySorted descending l ->
  StronglySorted descending (insert_by (fun a b => if a >? b then -1 else 1) x l).
Proof.
  intros Hx Hs; induction Hs as [|y l Hs IH Hy]; simpl.
  - repeat constructor.
  - destruct (x >? y) eqn:E; simpl.
    + assert (y < x) by lia.
      constructor; [constructor; assumption|].
      constructor; [exact H|].
      rewrite Forall_forall in *; intros z Hz; specialize (Hy z Hz).
      unfold descending in *; lia.
    + constructor; [apply IH; simpl in Hx; tauto|].
      rewrite Forall_forall in *; intros z Hz.
      apply (Permutation_in _ (insert_by_perm _ x l)) in Hz.
      destruct Hz as [<-|Hz]; [|auto].
      unfold descending; simpl in Hx.
      assert (x <> y) by (intros ->; tauto). lia.
Qed.

Lemma Array_sort_desc l :
  NoDup l ->
  StronglySorted descending (Array_sort (fun a b => if a >? b then -1 else 1) l).
Proof.
  induction 1 as [|x l Hx Hl IH]; simpl; [constructor|].
  apply insert_by_desc; [|exact IH].
  intros Hin; apply Hx.
  exact (Permutation_in _ (Array_sort_perm _ l) Hin).
Qed.

Lemma filter_split_perm {A} (p : A -> bool) (l : list A) :
  Permutation (filter p l ++ filter (fun x => negb (p x)) l) l.
Proof.
  induction l as [|x l IH]; simpl; [reflexivity|].
  destruct (p x); simpl.
  - constructor; exact IH.
  - rewrite <- Permutation_middle; constructor; exact IH.
Qed.

Lemma Object_keys_perm (s : Sets) : Permutation (Object_keys s) (map fst s).
Proof.
  unfold Object_keys.
  rewrite Array_sort_perm. apply filter_split_perm.
Qed.

(** ** Priority grouping *)

Lemma prioritizeConditions_eq this conds :
  prioritizeConditions this conds =
  (factSets <- reduce (fun sets c =>
       p <- priority_of this c ;; ret (sets_push sets p c)) conds [] ;;
   ret (map (fun priority => sets_at factSets priority)
            (Array_sort (fun a b => if a >? b then -1 else 1)
                        (Object_keys factSets)))).
Proof. reflexivity. Qed.

Lemma priority_of_ok this e c p :
  engine this = Some e -> effectivePriority e c = Some p ->
  result (priority_of this c) = Ok p.
Proof.
  unfold priority_of, effectivePriority, engine_getFact; intros -> H.
  destruct (condition_priority c) as [q|]; [destruct (q =? 0)|];
    try (injection H as <-; reflexivity);
    unfold bind; simpl; destruct (getFact e (condition_fact c));
    simpl in *; congruence.
Qed.

Lemma priority_of_err this e c :
  engine this = Some e -> effectivePriority e c = None ->
  priority_of this c =
  mkComp (Err (UndefinedFact (condition_fact c))) [GetFact (condition_fact c)].
Proof.
  unfold priority_of, effectivePriority, engine_getFact; intros -> H.
  destruct (condition_priority c) as [q|]; [destruct (q =? 0)|];
    try discriminate;
    unfold bind; simpl; destruct (getFact e (condition_fact c));
    simpl in *; congruence.
Qed.

Lemma priority_of_no_lookup this c :
  Forall (fun ev => is_lookup ev = false) (trace (priority_of this c)).
Proof.
  unfold priority_of, engine_getFact.
  destruct (condition_priority c) as [q|]; [destruct (q =? 0)|];
    try (constructor; fail);
    destruct (engine this) as [e|]; unfold bind; simpl;
    try destruct (getFact e (condition_fact c)); simpl; repeat constructor.
Qed.

Section Grouping.

Variable prio : Condition -> option Z.

Lemma filter_none {A} (f : A -> bool) (l : list A) :
  existsb f l = false -> filter f l = [].
Proof.
  induction l as [|x l IH]; simpl; [reflexivity|].
  destruct (f x); simpl; [discriminate | exact IH].
Qed.

Lemma filed_nil : filed prio [] [].
Proof. split; [constructor | reflexivity]. Qed.

Lemma sets_push_filed done s c p :
  filed prio done s -> prio c = Some p ->
  filed prio (done ++ [c]) (sets_push s p c).
Proof.
  intros [Hnd Hget] Hp; unfold sets_push; split.
  - apply sets_set_NoDup. destruct (sets_get s p); [exact Hnd|].
    apply sets_set_NoDup; exact Hnd.
  - intros k. rewrite existsb_app, filter_app; simpl.
    unfold has_priority at 2 4; rewrite Hp.
    destruct (Z.eq_dec k p) as [->|Hne].
    + rewrite Z.eqb_refl, orb_true_r, sets_get_set_same. f_equal; f_equal.
      unfold sets_at. pose proof (Hget p) as Hg.
      destruct (sets_get s p) eqn:E.
      * rewrite E. destruct (existsb (has_priority prio p) done); congruence.
      * rewrite sets_get_set_same.
        destruct (existsb (has_priority prio p) done) eqn:Ex; [discriminate|].
        rewrite (filter_none _ _ Ex); reflexivity.
    + assert ((p =? k) = false) as -> by (apply Z.eqb_neq; congruence).
      change (false || false)%bool with false.
      rewrite Bool.orb_false_r, app_nil_r.
      rewrite sets_get_set_other by exact Hne.
      destruct (sets_get s p); [apply Hget|].
      rewrite sets_get_set_other by exact Hne. apply Hget.
Qed.

End Grouping.

Lemma reduce_filed this e todo : forall done s,
  engine this = Some e ->
  filed (effectivePriority e) done s ->
  (forall c, In c todo -> effectivePriority e c <> None) ->
  exists s',
    result (reduce (fun sets c =>
              p <- priority_of this c ;; ret (sets_push sets p c)) todo s) = Ok s'
    /\ filed (effectivePriority e) (done ++ todo) s'.
Proof.
  induction todo as [|c todo IH]; intros done s He Hf Hall; simpl.
  - exists s; rewrite app_nil_r; auto.
  - destruct (effectivePriority e c) as [p|] eqn:Hp;
      [|exfalso; apply (Hall c); simpl; auto].
    pose proof (priority_of_ok this e c p He Hp) as Hr.
    destruct (IH (done ++ [c]) (sets_push s p c) He) as (s' & Hs' & Hf').
    + apply sets_push_filed; assumption.
    + intros c' Hc'; apply Hall; simpl; auto.
    + exists s'; split; [|rewrite <- app_assoc in Hf'; exact Hf'].
      rewrite (result_bind_ok _ _ (sets_push s p c)).
      * simpl. exact Hs'.
      * rewrite (result_bind_ok _ _ _ Hr); reflexivity.
Qed.

Lemma sorted_keys_filed prio conds s :
  filed prio conds s ->
  let keys := Array_sort (fun a b => if a >? b then -1 else 1) (Object_keys s) in
  StronglySorted descending keys
  /\ (forall k, In k keys <-> exists c, In c conds /\ prio c = Some k)
  /\ map (fun k => sets_at s k) keys
     = map (fun k => filter (has_priority prio k) conds) keys.
Proof.
  intros [Hnd Hget] keys.
  assert (Hperm : Permutation keys (map fst s)).
  { unfold keys; rewrite Array_sort_perm; apply Object_keys_perm. }
  assert (Hin : forall k, In k keys <-> existsb (has_priority prio k) conds = true).
  { intros k; split; intros H.
    - apply (Permutation_in _ Hperm), sets_get_keys in H.
      rewrite Hget in H. destruct (existsb _ conds); congruence.
    - apply (Permutation_in _ (Permutation_sym Hperm)), sets_get_keys.
      rewrite Hget, H; discriminate. }
  split; [|split].
  - apply Array_sort_desc.
    apply (Permutation_NoDup (Permutation_sym (Object_keys_perm s)) Hnd).
  - intros k; rewrite Hin, existsb_exists; unfold has_priority.
    split; intros (c & Hc & H); exists c; split; auto.
    + destruct (prio c); [apply Z.eqb_eq in H; congruence | discriminate].
    + rewrite H; apply Z.eqb_refl.
  - apply map_ext_in; intros k Hk. apply Hin in Hk.
    unfold sets_at; rewrite Hget, Hk; reflexivity.
Qed.

Lemma prioritizeConditions_grouped this e conds :
  engine this = Some e ->
  (forall c, In c conds -> effectivePriority e c <> None) ->
  exists groups,
    result (prioritizeConditions this conds) = Ok groups
    /\ grouped_by (effectivePriority e) conds groups.
Proof.
  intros He Hall.
  destruct (reduce_filed this e conds [] [] He (filed_nil _) Hall)
    as (s & Hs & Hf).
  simpl in Hf. destruct (sorted_keys_filed _ _ _ Hf) as (Hsort & Hkeys & Hmap).
  eexists; split.
  - rewrite prioritizeConditions_eq, (result_bind_ok _ _ _ Hs); reflexivity.
  - eexists; split; [exact Hmap | split; assumption].
Qed.

(** ** The short-circuit driver *)

Lemma prioritizeAndRun_eq this ev conds op :
  prioritizeAndRun this ev conds op =
  (orderedSets <- prioritizeConditions this conds ;;
   fold_left (group_step ev op) orderedSets (Promise_resolve VUndefined)).
Proof. reflexivity. Qed.

Lemma evaluateConditions_trace ev set m :
  trace (evaluateConditions ev set m) = flat_map (fun c => trace (ev c)) set.
Proof.
  unfold evaluateConditions, bind, Promise_all; simpl.
  destruct (all_results _); simpl; rewrite ?app_nil_r;
    rewrite map_map, flat_map_concat_map; reflexivity.
Qed.

Lemma evaluateConditions_result ev set m rs :
  all_results (map (fun c => result (ev c)) set) = Ok rs ->
  result (evaluateConditions ev set m) = Ok (VBool (m strict_true rs)).
Proof.
  intros H; unfold evaluateConditions, bind, Promise_all; simpl.
  rewrite map_map, H; reflexivity.
Qed.

Lemma evaluateConditions_result_inv ev set m v :
  result (evaluateConditions ev set m) = Ok v ->
  exists rs, all_results (map (fun c => result (ev c)) set) = Ok rs
             /\ v = VBool (m strict_true rs).
Proof.
  unfold evaluateConditions, bind, Promise_all; simpl. rewrite map_map.
  destruct (all_results _) as [rs|e]; simpl; [|discriminate].
  intros H; injection H as <-; eauto.
Qed.

Lemma not_continuing op v : continuing op v = false -> v = decisive op.
Proof.
  destruct op, v as [| |[|]| | |]; simpl; intros H;
    try discriminate; reflexivity.
Qed.

Lemma continuing_undecided op : continuing op (undecided op) = true.
Proof. destruct op; reflexivity. Qed.

Lemma continuing_decisive op : continuing op (decisive op) = false.
Proof. destruct op; reflexivity. Qed.

Lemma group_step_run ev op v t g :
  continuing op v = true ->
  group_step ev op (mkComp (Ok v) t) g =
  mkComp (result (evaluateConditions ev g (method_of op)))
         (t ++ trace (evaluateConditions ev g (method_of op))).
Proof.
  unfold group_step, continuing, bind; simpl; intros H.
  rewrite !orb_false_r.
  destruct (is_any op && strict_true v)%bool; [discriminate|].
  destruct (is_all op && strict_false v)%bool; [discriminate|].
  reflexivity.
Qed.

Lemma group_step_skip ev op t g :
  group_step ev op (mkComp (Ok (decisive op)) t) g = mkComp (Ok (decisive op)) t.
Proof.
  unfold group_step, bind; destruct op; simpl; rewrite app_nil_r; reflexivity.
Qed.

Lemma group_step_err ev op e t g :
  group_step ev op (mkComp (Err e) t) g = mkComp (Err e) t.
Proof. reflexivity. Qed.

Lemma run_skip ev op t post :
  fold_left (group_step ev op) post (mkComp (Ok (decisive op)) t)
  = mkComp (Ok (decisive op)) t.
Proof.
  induction post as [|g post IH]; simpl; [reflexivity|].
  rewrite group_step_skip; exact IH.
Qed.

Lemma run_err ev op e t post :
  fold_left (group_step ev op) post (mkComp (Err e) t) = mkComp (Err e) t.
Proof.
  induction post as [|g post IH]; simpl; [reflexivity|].
  rewrite group_step_err; exact IH.
Qed.

(** groups that all leave the operator undecided are all evaluated, in order *)
Lemma run_undecided ev op pre : forall v t,
  continuing op v = true ->
  (forall g, In g pre ->
     result (evaluateConditions ev g (method_of op)) = Ok (undecided op)) ->
  exists v',
    continuing op v' = true
    /\ fold_left (group_step ev op) pre (mkComp (Ok v) t)
       = mkComp (Ok v') (t ++ flat_map (fun c => trace (ev c)) (concat pre)).
Proof.
  induction pre as [|g pre IH]; intros v t Hv Hpre; simpl.
  - exists v; rewrite app_nil_r; auto.
  - rewrite (group_step_run ev op v t g Hv), (Hpre g (or_introl eq_refl)).
    destruct (IH (undecided op)
                 (t ++ trace (evaluateConditions ev g (method_of op)))
                 (continuing_undecided op)) as (v' & Hv' & Heq).
    + intros g' Hg'; apply Hpre; right; exact Hg'.
    + exists v'; split; [exact Hv'|].
      rewrite Heq, evaluateConditions_trace, flat_map_app, app_assoc.
      reflexivity.
Qed.

Lemma run_trace_incl ev op gs : forall c,
  incl (trace c) (trace (fold_left (group_step ev op) gs c)).
Proof.
  induction gs as [|g gs IH]; intros c; simpl; [apply incl_refl|].
  eapply incl_tran; [|apply IH].
  unfold group_step; apply trace_bind_incl.
Qed.

(** the run up to and including a group that is reached *)
Lemma run_reached this ev op conds pre g post t0 :
  prioritizeConditions this conds = mkComp (Ok (pre ++ g :: post)) t0 ->
  (forall g', In g' pre ->
     result (evaluateConditions ev g' (method_of op)) = Ok (undecided op)) ->
  prioritizeAndRun this ev conds op =
  let rest :=
    fold_left (group_step ev op) post
      (mkComp (result (evaluateConditions ev g (method_of op)))
              (flat_map (fun c => trace (ev c)) (List.concat (pre ++ [g])))) in
  mkComp (result rest) (t0 ++ trace rest).
Proof.
  intros Hgroups Hpre.
  rewrite prioritizeAndRun_eq, Hgroups; unfold bind; simpl.
  rewrite fold_left_app; simpl.
  destruct (run_undecided ev op pre VUndefined []) as (v & Hv & Heq);
    [destruct op; reflexivity | exact Hpre |].
  unfold Promise_resolve, ret; rewrite Heq; simpl.
  rewrite (group_step_run ev op v _ g Hv), evaluateConditions_trace.
  rewrite List.concat_app, flat_map_app; simpl. rewrite app_nil_r.
  reflexivity.
Qed.

Lemma filter_nothing {A} (f : A -> bool) (l : list A) :
  Forall (fun x => f x = false) l -> filter f l = [].
Proof.
  induction 1 as [|x l Hx _ IH]; simpl; [reflexivity|].
  rewrite Hx; exact IH.
Qed.

Lemma trace_bind_Forall {A B} (P : Event -> Prop) (m : Comp A) (f : A -> Comp B) :
  Forall P (trace m) -> (forall a, Forall P (trace (f a))) ->
  Forall P (trace (bind m f)).
Proof.
  intros Hm Hf; unfold bind; destruct (result m); simpl; [|exact Hm].
  apply Forall_app; split; [exact Hm | apply Hf].
Qed.

Lemma prioritizeConditions_no_lookup this conds :
  Forall (fun ev => is_lookup ev = false) (trace (prioritizeConditions this conds)).
Proof.
  rewrite prioritizeConditions_eq.
  apply trace_bind_Forall; [|intros; constructor].
  generalize (@nil (Z * list Condition)).
  induction conds as [|c conds IH]; intros s; simpl; [constructor|].
  apply trace_bind_Forall; [|intros a; apply IH].
  apply trace_bind_Forall; [apply priority_of_no_lookup | intros; constructor].
Qed.

Lemma run_decided this ev op conds pre g post t0 :
  prioritizeConditions this conds = mkComp (Ok (pre ++ g :: post)) t0 ->
  (forall g', In g' pre ->
     result (evaluateConditions ev g' (method_of op)) = Ok (undecided op)) ->
  result (evaluateConditions ev g (method_of op)) = Ok (decisive op) ->
  prioritizeAndRun this ev conds op =
  mkComp (Ok (decisive op))
         (t0 ++ flat_map (fun c => trace (ev c)) (List.concat (pre ++ [g]))).
Proof.
  intros Hgroups Hpre Hg.
  rewrite (run_reached this ev op conds pre g post t0 Hgroups Hpre); simpl.
  rewrite Hg, run_skip; reflexivity.
Qed.

(** C1. Short-circuit between priority groups: when the groups before [g]
    left the operator undecided and [g]'s combined result decides it ([true]
    under [any], [false] under [all]), the overall result is that value, and
    the provider calls made are those of the grouping ([t0], which holds no
    fact-value lookup) and of the conditions of the groups up to [g]: the
    fact-value lookups are exactly theirs, nothing of a remaining group is
    started. *)
Theorem C1_short_circuit_skips_remaining_groups :
  forall this ev op conds pre g post t0,
    prioritizeConditions this conds = mkComp (Ok (pre ++ g :: post)) t0 ->
    (forall g', In g' pre ->
       result (evaluateConditions ev g' (method_of op)) = Ok (undecided op)) ->
    result (evaluateConditions ev g (method_of op)) = Ok (decisive op) ->
    result (prioritizeAndRun this ev conds op) = Ok (decisive op)
    /\ trace (prioritizeAndRun this ev conds op)
       = t0 ++ flat_map (fun c => trace (ev c)) (List.concat (pre ++ [g]))
    /\ filter is_lookup (trace (prioritizeAndRun this ev conds op))
       = filter is_lookup
           (flat_map (fun c => trace (ev c)) (List.concat (pre ++ [g]))).
Proof.
  intros this ev op conds pre g post t0 Hgroups Hpre Hg.
  rewrite (run_decided this ev op conds pre g post t0 Hgroups Hpre Hg).
  split; [reflexivity|]. split; [reflexivity|]. simpl.
  rewrite filter_app, (filter_nothing is_lookup t0); [reflexivity|].
  pose proof (prioritizeConditions_no_lookup this conds) as H.
  rewrite Hgroups in H; exact H.
Qed.

Lemma C1_witness :
  (result (prioritizeAndRun sample_rule
             (evaluateCondition sample_evaluate sample_rule)
             [equal "c" 3 None; equal "a" 1 None; equal "b" 5 (Some 100);
              equal "b" 2 None] Any) = Ok (VBool true)
   /\ trace (prioritizeAndRun sample_rule
               (evaluateCondition sample_evaluate sample_rule)
               [equal "c" 3 None; equal "a" 1 None; equal "b" 5 (Some 100);
                equal "b" 2 None] Any)
      = [GetFact (VStr "c"); GetFact (VStr "a"); GetFact (VStr "b");
         FactValue (VStr "b") VUndefined; FactValue (VStr "a") VUndefined;
         FactValue (VStr "b") VUndefined]
   /\ filter is_lookup
        (trace (prioritizeAndRun sample_rule
                  (evaluateCondition sample_evaluate sample_rule)
                  [equal "c" 3 None; equal "a" 1 None; equal "b" 5 (Some 100);
                   equal "b" 2 None] Any))
      = [FactValue (VStr "b") VUndefined; FactValue (VStr "a") VUndefined;
         FactValue (VStr "b") VUndefined])
  /\
  (result (prioritizeAndRun sample_rule
             (evaluateCondition sample_evaluate sample_rule)
             [equal "c" 3 None; equal "a" 1 (Some 100); equal "a" 2 None;
              equal "b" 2 None] All) = Ok (VBool false)
   /\ trace (prioritizeAndRun sample_rule
               (evaluateCondition sample_evaluate sample_rule)
               [equal "c" 3 None; equal "a" 1 (Some 100); equal "a" 2 None;
                equal "b" 2 None] All)
      = [GetFact (VStr "c"); GetFact (VStr "a"); GetFact (VStr "b");
         FactValue (VStr "a") VUndefined; FactValue (VStr "a") VUndefined;
         FactValue (VStr "b") VUndefined]
   /\ filter is_lookup
        (trace (prioritizeAndRun sample_rule
                  (evaluateCondition sample_evaluate sample_rule)
                  [equal "c" 3 None; equal "a" 1 (Some 100); equal "a" 2 None;
                   equal "b" 2 None] All))
      = [FactValue (VStr "a") VUndefined; FactValue (VStr "a") VUndefined;
         FactValue (VStr "b") VUndefined]).
Proof.
  split.
  - apply (C1_short_circuit_skips_remaining_groups
             sample_rule (evaluateCondition sample_evaluate sample_rule) Any
             [equal "c" 3 None; equal "a" 1 None; equal "b" 5 (Some 100);
              equal "b" 2 None]
             [[equal "b" 5 (Some 100)]]
             [equal "a" 1 None; equal "b" 2 None]
             [[equal "c" 3 None]]
             [GetFact (VStr "c"); GetFact (VStr "a"); GetFact (VStr "b")]).
    + reflexivity.
    + intros g' [<-|[]]; reflexivity.
    + reflexivity.
  - apply (C1_short_circuit_skips_remaining_groups
             sample_rule (evaluateCondition sample_evaluate sample_rule) All
             [equal "c" 3 None; equal "a" 1 (Some 100); equal "a" 2 None;
              equal "b" 2 None]
             [[equal "a" 1 (Some 100)]]
             [equal "a" 2 None; equal "b" 2 None]
             [[equal "c" 3 None]]
             [GetFact (VStr "c"); GetFact (VStr "a"); GetFact (VStr "b")]).
    + reflexivity.
    + intros g' [<-|[]]; reflexivity.
    + reflexivity.
Defined.

Lemma leaf_lookup cev this e f p o v pr :
  engine this = Some e ->
  In (FactValue (VStr f) p) (trace (evaluateCondition cev this (Leaf f p o v pr))).
Proof.
  intros He. unfold evaluateCondition; simpl.
  apply trace_bind_incl. unfold engine_factValue; rewrite He; simpl; auto.
Qed.

(** C2. No short-circuit inside a group: when a group is reached (the groups
    before it left the operator undecided), the evaluation of every one of
    its conditions is started, whatever its siblings evaluate to; for a leaf
    this means its fact lookup is invoked. *)
Theorem C2_whole_group_is_started :
  forall cev this e op conds pre g post t0,
    engine this = Some e ->
    prioritizeConditions this conds = mkComp (Ok (pre ++ g :: post)) t0 ->
    (forall g', In g' pre ->
       result (evaluateConditions (evaluateCondition cev this) g' (method_of op))
       = Ok (undecided op)) ->
    forall c, In c g ->
      incl (trace (evaluateCondition cev this c))
           (trace (prioritizeAndRun this (evaluateCondition cev this) conds op))
      /\ forall f p o v pr, c = Leaf f p o v pr ->
           In (FactValue (VStr f) p)
              (trace (prioritizeAndRun this (evaluateCondition cev this) conds op)).
Proof.
  intros cev this e op conds pre g post t0 He Hgroups Hpre c Hc.
  assert (Hincl : incl (trace (evaluateCondition cev this c))
           (trace (prioritizeAndRun this (evaluateCondition cev this) conds op))).
  { rewrite (run_reached this _ op conds pre g post t0 Hgroups Hpre); simpl.
    apply incl_appr. eapply incl_tran; [|apply run_trace_incl]. simpl.
    rewrite List.concat_app, flat_map_app; simpl. rewrite app_nil_r.
    apply incl_appr. intros x Hx. apply in_flat_map. exists c; auto. }
  split; [exact Hincl|].
  intros f p o v pr ->. apply Hincl. apply (leaf_lookup cev this e); exact He.
Qed.

Lemma C2_witness :
  incl (trace (evaluateCondition sample_evaluate sample_rule (equal "b" 2 None)))
       (trace (prioritizeAndRun sample_rule
                 (evaluateCondition sample_evaluate sample_rule)
                 [equal "a" 7 None; equal "b" 2 None; equal "c" 3 None] All))
  /\ forall f p o v pr, equal "b" 2 None = Leaf f p o v pr ->
       In (FactValue (VStr f) p)
          (trace (prioritizeAndRun sample_rule
                    (evaluateCondition sample_evaluate sample_rule)
                    [equal "a" 7 None; equal "b" 2 None; equal "c" 3 None] All)).
Proof.
  apply (C2_whole_group_is_started sample_evaluate sample_rule sample_engine All
           [equal "a" 7 None; equal "b" 2 None; equal "c" 3 None]
           [] [equal "a" 7 None; equal "b" 2 None] [[equal "c" 3 None]]
           [GetFact (VStr "a"); GetFact (VStr "b"); GetFact (VStr "c")]).
  - reflexivity.
  - reflexivity.
  - intros g' [].
  - simpl; auto.
Defined.

(** ** Undefined facts *)

Lemma reduce_undefined this e todo : forall s,
  engine this = Some e ->
  (exists c, In c todo /\ effectivePriority e c = None) ->
  exists c', In c' todo /\ effectivePriority e c' = None
    /\ result (reduce (fun sets c =>
                 p <- priority_of this c ;; ret (sets_push sets p c)) todo s)
       = Err (UndefinedFact (condition_fact c')).
Proof.
  induction todo as [|c todo IH]; intros s He (c0 & Hin & Hnone);
    [destruct Hin|]; simpl.
  destruct (effectivePriority e c) as [p|] eqn:Hp.
  - destruct Hin as [->|Hin]; [congruence|].
    destruct (IH (sets_push s p c) He (ex_intro _ c0 (conj Hin Hnone)))
      as (c' & Hc' & Hn' & Hr).
    exists c'; split; [right; exact Hc' | split; [exact Hn'|]].
    rewrite (result_bind_ok _ _ (sets_push s p c)); [exact Hr|].
    rewrite (result_bind_ok _ _ _ (priority_of_ok this e c p He Hp)); reflexivity.
  - exists c; split; [left; reflexivity | split; [exact Hp|]].
    rewrite (priority_of_err this e c He Hp); reflexivity.
Qed.

(** C5. A sibling list with a condition that has no explicit priority and
    whose fact is not registered: the run fails with an undefined-fact error
    (for the first condition of the list left without a priority), and it
    has made no fact-value lookup at all. *)
Theorem C5_undefined_fact_fails_before_any_lookup :
  forall this e ev op conds c,
    engine this = Some e ->
    In c conds ->
    condition_priority c = None ->
    getFact e (condition_fact c) = None ->
    (exists c', In c' conds /\ effectivePriority e c' = None
       /\ result (prioritizeAndRun this ev conds op)
          = Err (UndefinedFact (condition_fact c')))
    /\ Forall (fun call => is_lookup call = false)
              (trace (prioritizeAndRun this ev conds op)).
Proof.
  intros this e ev op conds c He Hin Hprio Hfact.
  assert (Hnone : effectivePriority e c = None).
  { unfold effectivePriority; rewrite Hprio, Hfact; reflexivity. }
  destruct (reduce_undefined this e conds [] He (ex_intro _ c (conj Hin Hnone)))
    as (c' & Hc' & Hn' & Hr).
  assert (Hres : result (prioritizeConditions this conds)
                 = Err (UndefinedFact (condition_fact c'))).
  { rewrite prioritizeConditions_eq, (result_bind_err _ _ _ Hr); reflexivity. }
  assert (Hrun : prioritizeAndRun this ev conds op
                 = mkComp (Err (UndefinedFact (condition_fact c')))
                          (trace (prioritizeConditions this conds))).
  { rewrite prioritizeAndRun_eq. apply result_bind_err; exact Hres. }
  rewrite Hrun; simpl; split.
  - exists c'; auto.
  - apply prioritizeConditions_no_lookup.
Qed.

Lemma C5_witness :
  (exists c', In c' [equal "a" 1 None; equal "zz" 1 None; equal "b" 2 None]
     /\ effectivePriority sample_engine c' = None
     /\ result (prioritizeAndRun sample_rule
                  (evaluateCondition sample_evaluate sample_rule)
                  [equal "a" 1 None; equal "zz" 1 None; equal "b" 2 None] All)
        = Err (UndefinedFact (condition_fact c')))
  /\ Forall (fun call => is_lookup call = false)
            (trace (prioritizeAndRun sample_rule
                      (evaluateCondition sample_evaluate sample_rule)
                      [equal "a" 1 None; equal "zz" 1 None; equal "b" 2 None] All)).
Proof.
  apply (C5_undefined_fact_fails_before_any_lookup
           sample_rule sample_engine
           (evaluateCondition sample_evaluate sample_rule) All
           [equal "a" 1 None; equal "zz" 1 None; equal "b" 2 None]
           (equal "zz" 1 None)).
  - reflexivity.
  - simpl; auto.
  - reflexivity.
  - reflexivity.
Defined.

(** ** Empty condition lists *)

(** C8. An empty sibling list, under either operator: the grouping yields no
    group and calls nothing, and the run fulfils with the value of the
    initial cursor [Promise.resolve()], which is [undefined], having made no
    provider call. *)
Theorem C8_empty_conditions :
  forall this ev op,
    prioritizeConditions this [] = mkComp (Ok []) []
    /\ prioritizeAndRun this ev [] op = Promise_resolve VUndefined
    /\ result (prioritizeAndRun this ev [] op) = Ok VUndefined
    /\ trace (prioritizeAndRun this ev [] op) = [].
Proof. intros this ev op; repeat split. Qed.

(** ** Combining the results of a group *)

Lemma strict_true_iff v : strict_true v = true <-> v = VBool true.
Proof.
  destruct v as [| |[|]| | |]; simpl; split; intros H;
    try discriminate; reflexivity.
Qed.

(** C10. When the conditions of a group have produced the results [rs], the
    combined result is a boolean, and it is [true] exactly when every (under
    [every]) or some (under [some]) result is the boolean [true] itself; any
    other result value counts as not satisfied. *)
Theorem C10_only_strict_true_counts :
  forall ev set rs,
    all_results (map (fun c => result (ev c)) set) = Ok rs ->
    (exists b, result (evaluateConditions ev set Array_every) = Ok (VBool b)
               /\ (b = true <-> Forall (fun r => r = VBool true) rs))
    /\ (exists b, result (evaluateConditions ev set Array_some) = Ok (VBool b)
                  /\ (b = true <-> Exists (fun r => r = VBool true) rs)).
Proof.
  intros ev set rs Hrs; split.
  - exists (forallb strict_true rs); split.
    + apply (evaluateConditions_result ev set Array_every rs Hrs).
    + rewrite forallb_forall, Forall_forall.
      split; intros H r Hr; apply strict_true_iff, H, Hr.
  - exists (existsb strict_true rs); split.
    + apply (evaluateConditions_result ev set Array_some rs Hrs).
    + rewrite existsb_exists, Exists_exists.
      split; intros (r & Hr & H); exists r; split; auto; apply strict_true_iff, H.
Qed.

Lemma C10_witness :
  (exists b,
     result (evaluateConditions (evaluateCondition identity_evaluate sample_rule)
               [equal "a" 1 None; equal "b" 2 None] Array_every) = Ok (VBool b)
     /\ (b = true <-> Forall (fun r => r = VBool true) [VNum 1; VNum 2]))
  /\ (exists b,
        result (evaluateConditions (evaluateCondition identity_evaluate sample_rule)
                  [equal "a" 1 None; equal "b" 2 None] Array_some) = Ok (VBool b)
        /\ (b = true <-> Exists (fun r => r = VBool true) [VNum 1; VNum 2])).
Proof.
  apply (C10_only_strict_true_counts
           (evaluateCondition identity_evaluate sample_rule)
           [equal "a" 1 None; equal "b" 2 None] [VNum 1; VNum 2]).
  reflexivity.
Defined.

(** truthy results that are not the boolean [true] do not satisfy a group *)
Example truthy_results_do_not_count :
  truthy (VNum 1) = true /\ truthy (VStr "true") = true
  /\ result (evaluateConditions (fun c => ret (condition_fact c))
               [equal "true" 0 None] Array_some) = Ok (VBool false)
  /\ result (evaluateConditions (evaluateCondition identity_evaluate sample_rule)
               [equal "a" 1 None; equal "b" 2 None] Array_some) = Ok (VBool false).
Proof. repeat split. Qed.

(** ** Members of the groups *)

Lemma result_bind_inv {A B} (m : Comp A) (f : A -> Comp B) b :
  result (bind m f) = Ok b -> exists a, result m = Ok a /\ result (f a) = Ok b.
Proof.
  unfold bind; destruct (result m) as [a|e]; simpl; [eauto | discriminate].
Qed.

Lemma sets_at_within done s k : within done s -> incl (sets_at s k) done.
Proof.
  intros H; unfold sets_at; destruct (sets_get s k) eqn:E;
    [exact (H k l E) | intros x []].
Qed.

Lemma sets_push_within done s p c :
  within done s -> within (done ++ [c]) (sets_push s p c).
Proof.
  intros H k v; unfold sets_push.
  set (s' := match sets_get s p with None => sets_set s p [] | Some _ => s end).
  assert (H' : within done s').
  { unfold s'; destruct (sets_get s p) eqn:E; [exact H|].
    intros k' v'; destruct (Z.eq_dec k' p) as [->|Hne].
    - rewrite sets_get_set_same; intros Hv; injection Hv as <-; intros x [].
    - rewrite sets_get_set_other by exact Hne; apply H. }
  destruct (Z.eq_dec k p) as [->|Hne].
  - rewrite sets_get_set_same; intros Hv; injection Hv as <-.
    apply incl_app; [|apply incl_appr, incl_refl].
    apply incl_appl, sets_at_within, H'.
  - rewrite sets_get_set_other by exact Hne.
    intros Hv; apply incl_appl; exact (H' k v Hv).
Qed.

Lemma reduce_within this todo : forall done s s',
  within done s ->
  result (reduce (fun sets c =>
            p <- priority_of this c ;; ret (sets_push sets p c)) todo s) = Ok s' ->
  within (done ++ todo) s'.
Proof.
  induction todo as [|c todo IH]; intros done s s' Hw Hr; simpl in Hr.
  - injection Hr as <-; rewrite app_nil_r; exact Hw.
  - apply result_bind_inv in Hr; destruct Hr as (s1 & H1 & Hr).
    apply result_bind_inv in H1; destruct H1 as (p & _ & H1).
    simpl in H1; injection H1 as <-.
    rewrite (app_assoc done [c] todo : done ++ c :: todo = (done ++ [c]) ++ todo).
    apply (IH _ _ _ (sets_push_within done s p c Hw) Hr).
Qed.

Lemma prioritizeConditions_members this conds groups :
  result (prioritizeConditions this conds) = Ok groups ->
  forall g c, In g groups -> In c g -> In c conds.
Proof.
  rewrite prioritizeConditions_eq; intros Hr g c Hg Hc.
  apply result_bind_inv in Hr; destruct Hr as (s & Hs & Hr).
  simpl in Hr; injection Hr as <-.
  apply in_map_iff in Hg; destruct Hg as (k & <- & _).
  assert (Hw : within ([] ++ conds) s).
  { apply (reduce_within this conds [] [] s); [|exact Hs].
    intros k' v'; simpl; discriminate. }
  exact (sets_at_within _ s k Hw c Hc).
Qed.

(** ** The recursion bound *)

Lemma run_ext this1 this2 ev1 ev2 conds op :
  prioritizeConditions this1 conds = prioritizeConditions this2 conds ->
  (forall c, In c conds -> ev1 c = ev2 c) ->
  prioritizeAndRun this1 ev1 conds op = prioritizeAndRun this2 ev2 conds op.
Proof.
  intros Hp Hev. rewrite !prioritizeAndRun_eq, <- Hp.
  unfold bind. destruct (result (prioritizeConditions this1 conds))
    as [groups|e] eqn:Hr; [|reflexivity].
  pose proof (prioritizeConditions_members this1 conds groups Hr) as Hmem.
  assert (Hfold : forall (gs : list (list Condition)) c0,
             (forall g c, In g gs -> In c g -> In c conds) ->
             fold_left (group_step ev1 op) gs c0
             = fold_left (group_step ev2 op) gs c0).
  { induction gs as [|g gs IH]; intros c0 Hgs; simpl; [reflexivity|].
    assert (Hg : evaluateConditions ev1 g (method_of op)
                 = evaluateConditions ev2 g (method_of op)).
    { unfold evaluateConditions. f_equal. f_equal.
      apply map_ext_in; intros c Hc; apply Hev, (Hgs g c); simpl; auto. }
    unfold group_step at 2 4. rewrite Hg.
    apply IH; intros g' c Hg' Hc; apply (Hgs g' c); simpl; auto. }
  rewrite (Hfold groups _ Hmem); reflexivity.
Qed.

Lemma depth_child op cs pr c :
  In c cs -> (depth c < depth (Node op cs pr))%nat.
Proof.
  intros Hin; simpl.
  assert (H : Forall (fun k => (k <= list_max (map depth cs))%nat) (map depth cs))
    by (apply list_max_le; apply le_n).
  rewrite Forall_forall in H.
  specialize (H (depth c) (in_map depth cs c Hin)). lia.
Qed.

(** fuel above the depth of the condition does not change the outcome *)
Lemma fuel_irrelevant cev this : forall n m c,
  (depth c < n)%nat -> (depth c < m)%nat ->
  evaluateConditionN cev this n c = evaluateConditionN cev this m c.
Proof.
  induction n as [|n IH]; intros m c Hn Hm; [lia|].
  destruct m as [|m]; [lia|].
  destruct c as [f p o v pr | op cs pr]; [reflexivity|].
  assert (Hrun : prioritizeAndRun this (evaluateConditionN cev this n) cs op
                 = prioritizeAndRun this (evaluateConditionN cev this m) cs op).
  { apply run_ext; [reflexivity|]. intros c Hc.
    pose proof (depth_child op cs pr c Hc) as Hd. simpl in Hd, Hn, Hm. apply IH; lia. }
  simpl; unfold all, any; destruct op; rewrite Hrun; reflexivity.
Qed.

Lemma evaluateCondition_fuel cev this n c :
  (depth c < n)%nat ->
  evaluateConditionN cev this n c = evaluateCondition cev this c.
Proof. intros H; apply fuel_irrelevant; [exact H | lia]. Qed.

Lemma evaluateCondition_leaf cev this f p o v pr :
  evaluateCondition cev this (Leaf f p o v pr) =
  (comparisonValue <- engine_factValue this (VStr f) p ;;
   lift (cev (Leaf f p o v pr) comparisonValue)).
Proof. reflexivity. Qed.

Lemma evaluateCondition_node cev this op cs pr :
  evaluateCondition cev this (Node op cs pr) =
  (comparisonValue <- prioritizeAndRun this (evaluateCondition cev this) cs op ;;
   lift (cev (Node op cs pr) comparisonValue)).
Proof.
  assert (Hrun : prioritizeAndRun this
                   (evaluateConditionN cev this (depth (Node op cs pr))) cs op
                 = prioritizeAndRun this (evaluateCondition cev this) cs op).
  { apply run_ext; [reflexivity|]. intros c Hc.
    apply evaluateCondition_fuel, (depth_child op cs pr c Hc). }
  unfold evaluateCondition at 1.
  change (evaluateConditionN cev this (S (depth (Node op cs pr))) (Node op cs pr))
    with (comparisonValue <-
            match op with
            | All => all this (evaluateConditionN cev this (depth (Node op cs pr))) cs
            | Any => any this (evaluateConditionN cev this (depth (Node op cs pr))) cs
            end ;;
          lift (cev (Node op cs pr) comparisonValue)).
  unfold all, any; destruct op; rewrite Hrun; reflexivity.
Qed.

Lemma result_bind_err_inv {A B} (m : Comp A) (f : A -> Comp B) e :
  result (bind m f) = Err e ->
  result m = Err e \/ exists a, result m = Ok a /\ result (f a) = Err e.
Proof.
  unfold bind; destruct (result m) as [a|e']; simpl; intros H.
  - right; exists a; auto.
  - left; injection H as ->; reflexivity.
Qed.

Lemma all_results_err {A} (l : list (Result A)) e :
  all_results l = Err e -> In (Err e) l.
Proof.
  induction l as [|r l IH]; simpl; [discriminate|].
  destruct r as [a|e']; [|intros H; left; injection H as ->; reflexivity].
  destruct (all_results l); [discriminate|].
  intros H; right; apply IH; exact H.
Qed.

Lemma priority_of_not_exhausted this c :
  result (priority_of this c) <> Err FuelExhausted.
Proof.
  unfold priority_of, engine_getFact, bind.
  destruct (condition_priority c) as [q|]; [destruct (q =? 0)|];
    destruct (engine this) as [e|]; simpl;
    try destruct (getFact e (condition_fact c)); simpl; discriminate.
Qed.

Lemma prioritizeConditions_not_exhausted this conds :
  result (prioritizeConditions this conds) <> Err FuelExhausted.
Proof.
  rewrite prioritizeConditions_eq; intros H.
  apply result_bind_err_inv in H; destruct H as [H|(s & _ & H)];
    [|discriminate H].
  revert H; generalize (@nil (Z * list Condition)).
  induction conds as [|c conds IH]; intros s H; simpl in H; [discriminate|].
  apply result_bind_err_inv in H; destruct H as [H|(s1 & _ & H)];
    [|exact (IH s1 H)].
  apply result_bind_err_inv in H; destruct H as [H|(p & _ & H)];
    [exact (priority_of_not_exhausted this c H) | discriminate H].
Qed.

Lemma evaluateConditions_not_exhausted ev g m :
  (forall c, In c g -> result (ev c) <> Err FuelExhausted) ->
  result (evaluateConditions ev g m) <> Err FuelExhausted.
Proof.
  intros Hg H. unfold evaluateConditions in H.
  apply result_bind_err_inv in H; destruct H as [H|(rs & _ & H)];
    [|discriminate H].
  unfold Promise_all in H; simpl in H. rewrite map_map in H.
  apply all_results_err, in_map_iff in H. destruct H as (c & Hc & Hin).
  exact (Hg c Hin Hc).
Qed.

Lemma run_not_exhausted ev op gs : forall c0,
  result c0 <> Err FuelExhausted ->
  (forall g c, In g gs -> In c g -> result (ev c) <> Err FuelExhausted) ->
  result (fold_left (group_step ev op) gs c0) <> Err FuelExhausted.
Proof.
  induction gs as [|g gs IH]; intros c0 Hc0 Hgs; simpl; [exact Hc0|].
  apply IH; [|intros g' c Hg' Hc; apply (Hgs g' c); simpl; auto].
  intros H. unfold group_step in H.
  apply result_bind_err_inv in H; destruct H as [H|(v & _ & H)];
    [exact (Hc0 H)|].
  destruct (is_any op && strict_true v || false)%bool; [discriminate H|].
  destruct (is_all op && strict_false v || false)%bool; [discriminate H|].
  revert H; apply evaluateConditions_not_exhausted.
  intros c Hc; apply (Hgs g c); simpl; auto.
Qed.

Lemma prioritizeAndRun_not_exhausted this ev conds op :
  (forall c, In c conds -> result (ev c) <> Err FuelExhausted) ->
  result (prioritizeAndRun this ev conds op) <> Err FuelExhausted.
Proof.
  intros Hev H. rewrite prioritizeAndRun_eq in H.
  apply result_bind_err_inv in H; destruct H as [H|(groups & Hg & H)];
    [exact (prioritizeConditions_not_exhausted this conds H)|].
  revert H; apply run_not_exhausted; [discriminate|].
  intros g c Hin Hc.
  apply Hev, (prioritizeConditions_members this conds groups Hg g c Hin Hc).
Qed.

(** the bound is never reached when the collaborators do not raise it *)
Lemma evaluateConditionN_no_exhaustion cev this :
  (forall c v, cev c v <> Err FuelExhausted) ->
  (forall e f p, engine this = Some e -> factValue e f p <> Err FuelExhausted) ->
  forall n c, (depth c < n)%nat ->
    result (evaluateConditionN cev this n c) <> Err FuelExhausted.
Proof.
  intros Hcev Heng. induction n as [|n IH]; intros c Hn; [lia|].
  intros H; simpl in H.
  apply result_bind_err_inv in H; destruct H as [H|(v & _ & H)];
    [|exact (Hcev c v H)].
  destruct c as [f p o v pr | op cs pr].
  - unfold engine_factValue in H.
    destruct (engine this) as [e|] eqn:He; simpl in H; [|discriminate H].
    exact (Heng e (VStr f) p eq_refl H).
  - assert (Hcs : forall c', In c' cs ->
              result (evaluateConditionN cev this n c') <> Err FuelExhausted).
    { intros c' Hc'. pose proof (depth_child op cs pr c' Hc') as Hd.
      simpl in Hd, Hn. apply IH; lia. }
    destruct op; unfold all, any in H;
      exact (prioritizeAndRun_not_exhausted this _ cs _ Hcs H).
Qed.

Lemma evaluate_fuel cev this :
  (forall c v, cev c v <> Err FuelExhausted) ->
  (forall e f p, engine this = Some e -> factValue e f p <> Err FuelExhausted) ->
  result (evaluate cev this) <> Err FuelExhausted.
Proof.
  intros Hcev Heng. unfold evaluate.
  destruct (conditions this) as [[f p o v pr|[|] cs pr]|]; try discriminate;
    unfold all, any; apply prioritizeAndRun_not_exhausted; intros c _;
    apply evaluateConditionN_no_exhaustion; auto.
Qed.

(** ** Boolean nodes *)

(** C3 (as the code has it). On a boolean-operator node, [evaluateCondition]
    hands the recursive [all]/[any] result of the child array to the node's
    own evaluator [condition.evaluate] and returns what that returns; the
    result is the nested result itself when the evaluator returns that
    value unchanged. *)
Theorem C3_boolean_node_result_goes_through_evaluate :
  forall cev this op cs pr,
    evaluateCondition cev this (Node op cs pr) =
    (comparisonValue <- prioritizeAndRun this (evaluateCondition cev this) cs op ;;
     lift (cev (Node op cs pr) comparisonValue))
    /\ forall v,
         result (prioritizeAndRun this (evaluateCondition cev this) cs op) = Ok v ->
         result (evaluateCondition cev this (Node op cs pr)) = cev (Node op cs pr) v
         /\ (cev (Node op cs pr) v = Ok v ->
             result (evaluateCondition cev this (Node op cs pr)) = Ok v).
Proof.
  intros cev this op cs pr.
  pose proof (evaluateCondition_node cev this op cs pr) as Heq.
  split; [exact Heq|].
  intros v Hv.
  assert (Hr : result (evaluateCondition cev this (Node op cs pr))
               = cev (Node op cs pr) v).
  { rewrite Heq, (result_bind_ok _ _ v Hv); reflexivity. }
  split; [exact Hr | intros Hid; rewrite Hr; exact Hid].
Qed.

Lemma C3_witness :
  result (evaluateCondition sample_evaluate sample_rule
            (Node Any [equal "a" 1 None; equal "c" 4 None] (Some 1)))
  = sample_evaluate (Node Any [equal "a" 1 None; equal "c" 4 None] (Some 1))
                    (VBool true)
  /\ (sample_evaluate (Node Any [equal "a" 1 None; equal "c" 4 None] (Some 1))
                      (VBool true) = Ok (VBool true) ->
      result (evaluateCondition sample_evaluate sample_rule
                (Node Any [equal "a" 1 None; equal "c" 4 None] (Some 1)))
      = Ok (VBool true)).
Proof.
  apply (proj2 (C3_boolean_node_result_goes_through_evaluate
                  sample_evaluate sample_rule Any
                  [equal "a" 1 None; equal "c" 4 None] (Some 1)) (VBool true)).
  reflexivity.
Defined.

(** C3 as stated fails: the nested result is not returned directly.  With an
    evaluator that tests [=== true], an empty [all] node yields [false]
    where the nested result is [undefined]; with an evaluator that inverts
    it, a node yields [false] where the nested [any] result is [true]. *)
Lemma C3_counterexample :
  (result (prioritizeAndRun sample_rule
             (evaluateCondition sample_evaluate sample_rule) [] All)
   = Ok VUndefined
   /\ result (evaluateCondition sample_evaluate sample_rule (Node All [] (Some 1)))
      = Ok (VBool false))
  /\ (result (prioritizeAndRun sample_rule
                (evaluateCondition negating_evaluate sample_rule)
                [equal "a" 1 None] Any)
      = Ok (VBool true)
      /\ result (evaluateCondition negating_evaluate sample_rule
                   (Node Any [equal "a" 1 None] (Some 1)))
         = Ok (VBool false))
  /\ ~ (forall cev this op cs pr,
          result (evaluateCondition cev this (Node op cs pr))
          = result (prioritizeAndRun this (evaluateCondition cev this) cs op)).
Proof.
  split; [split; reflexivity|]. split; [split; reflexivity|].
  intros H.
  specialize (H sample_evaluate sample_rule All [] (Some 1)).
  discriminate H.
Qed.

(** ** The order of the groups *)

Lemma grouped_by_ext prio1 prio2 conds groups :
  (forall c, In c conds -> prio1 c = prio2 c) ->
  grouped_by prio1 conds groups -> grouped_by prio2 conds groups.
Proof.
  intros Hext (keys & -> & Hsort & Hkeys).
  exists keys; split; [|split; [exact Hsort|]].
  - apply map_ext; intros k. apply filter_ext_in; intros c Hc.
    unfold has_priority; rewrite (Hext c Hc); reflexivity.
  - intros k; rewrite Hkeys; split; intros (c & Hc & Hp); exists c;
      (split; [exact Hc|]); [rewrite <- (Hext c Hc) | rewrite (Hext c Hc)];
      exact Hp.
Qed.

(** Where no sibling has an own priority of 0, the grouping is as C6 has
    it: the siblings are partitioned by "own priority if present, otherwise
    the fact's registered priority", the groups in strictly descending
    numeric order of priority, each group in the order of the list. *)
Lemma groups_by_descending_priority this e conds :
  engine this = Some e ->
  (forall c, In c conds -> condition_priority c <> Some 0) ->
  (forall c, In c conds -> ownOrFactPriority e c <> None) ->
  exists groups,
    result (prioritizeConditions this conds) = Ok groups
    /\ grouped_by (ownOrFactPriority e) conds groups.
Proof.
  intros He Hnz Hall.
  assert (Hsame : forall c, In c conds ->
            effectivePriority e c = ownOrFactPriority e c).
  { intros c Hc. unfold effectivePriority, ownOrFactPriority.
    destruct (condition_priority c) as [p|] eqn:Hp; [|reflexivity].
    destruct (p =? 0) eqn:E; [|reflexivity].
    apply Z.eqb_eq in E; subst p. exfalso; exact (Hnz c Hc Hp). }
  destruct (prioritizeConditions_grouped this e conds He) as (groups & Hr & Hg).
  - intros c Hc; rewrite (Hsame c Hc); apply Hall, Hc.
  - exists groups; split; [exact Hr|].
    exact (grouped_by_ext _ _ conds groups Hsame Hg).
Qed.

(** priorities 100, 10 and 9 come out in numeric order (as numerals, "9"
    would sort above "100" and "10") *)
Example groups_in_numeric_order :
  result (prioritizeConditions sample_rule
            [equal "c" 3 None; equal "a" 1 (Some 9); equal "b" 2 None;
             equal "b" 5 (Some 100); equal "a" 4 None])
  = Ok [[equal "b" 5 (Some 100)];
        [equal "b" 2 None; equal "a" 4 None];
        [equal "a" 1 (Some 9)];
        [equal "c" 3 None]].
Proof. reflexivity. Qed.

(** C6, at an own priority of 0.  The comments of [prioritizeConditions]
    say a priority set on the condition is honoured first, but the test
    [if (!priority)] takes 0 for "not set": the condition is filed under its
    fact's priority (10 here), ahead of a sibling of priority 5, so the
    groups are not those of "own priority if present, otherwise the fact's",
    in descending order. *)
Theorem C6_own_priority_zero_is_filed_under_the_fact :
  result (prioritizeConditions sample_rule
            [equal "a" 1 (Some 0); equal "c" 3 (Some 5)])
  = Ok [[equal "a" 1 (Some 0)]; [equal "c" 3 (Some 5)]]
  /\ ownOrFactPriority sample_engine (equal "a" 1 (Some 0)) = Some 0
  /\ ownOrFactPriority sample_engine (equal "c" 3 (Some 5)) = Some 5
  /\ ~ (exists groups,
          result (prioritizeConditions sample_rule
                    [equal "a" 1 (Some 0); equal "c" 3 (Some 5)]) = Ok groups
          /\ grouped_by (ownOrFactPriority sample_engine)
               [equal "a" 1 (Some 0); equal "c" 3 (Some 5)] groups).
Proof.
  split; [reflexivity|]. split; [reflexivity|]. split; [reflexivity|].
  intros (groups & Hr & keys & Hg & Hs & _).
  change (Ok [[equal "a" 1 (Some 0)]; [equal "c" 3 (Some 5)]] = Ok groups) in Hr.
  injection Hr as <-.
  destruct keys as [|k1 [|k2 [|k3 keys]]]; try discriminate Hg.
  unfold has_priority in Hg; cbn -[Z.eqb] in Hg.
  inversion Hs as [|? ? _ Hall]; subst.
  inversion Hall as [|? ? Hlt _]; subst. unfold descending in Hlt.
  destruct (0 =? k1) eqn:E1; destruct (5 =? k1) eqn:E2;
    destruct (0 =? k2) eqn:E3; destruct (5 =? k2) eqn:E4;
    cbn -[Z.eqb] in Hg; try discriminate Hg;
    repeat match goal with
           | H : (_ =? _) = true |- _ => apply Z.eqb_eq in H
           end; lia.
Qed.

(** the same input with an unregistered fact: the own priority 0 does not
    keep the grouping from failing *)
Example own_priority_zero_with_an_unregistered_fact :
  result (prioritizeConditions sample_rule
            [equal "zz" 1 (Some 0); equal "c" 3 (Some 5)])
  = Err (UndefinedFact (VStr "zz")).
Proof. reflexivity. Qed.

(** ** The boolean value of a sibling list *)

Lemma all_results_values ev g :
  (forall c, In c g -> exists v, result (ev c) = Ok v) ->
  exists rs,
    all_results (map (fun c => result (ev c)) g) = Ok rs
    /\ forallb strict_true rs = forallb (satisfied ev) g
    /\ existsb strict_true rs = existsb (satisfied ev) g.
Proof.
  induction g as [|c g IH]; intros Hg; simpl.
  - exists []; auto.
  - destruct (Hg c (or_introl eq_refl)) as (v & Hv).
    destruct IH as (rs & Hrs & Hall & Hex);
      [intros c' Hc'; apply Hg; right; exact Hc'|].
    exists (v :: rs); rewrite Hv, Hrs; simpl.
    unfold satisfied at 1 3; rewrite Hv, Hall, Hex; auto.
Qed.

Lemma group_value ev op g :
  (forall c, In c g -> exists v, result (ev c) = Ok v) ->
  result (evaluateConditions ev g (method_of op))
  = Ok (VBool (combine op (satisfied ev) g)).
Proof.
  intros Hg. destruct (all_results_values ev g Hg) as (rs & Hrs & Hall & Hex).
  rewrite (evaluateConditions_result ev g (method_of op) rs Hrs).
  unfold method_of, combine, Array_every, Array_some.
  destruct (is_all op); congruence.
Qed.

Lemma combine_app op f l1 l2 :
  combine op f (l1 ++ l2)
  = if is_all op then (combine op f l1 && combine op f l2)%bool
    else (combine op f l1 || combine op f l2)%bool.
Proof.
  unfold combine; destruct (is_all op); [apply forallb_app | apply existsb_app].
Qed.

Lemma run_value ev op gs : forall v0 t,
  continuing op v0 = true ->
  gs <> [] ->
  (forall g c, In g gs -> In c g -> exists v, result (ev c) = Ok v) ->
  result (fold_left (group_step ev op) gs (mkComp (Ok v0) t))
  = Ok (VBool (combine op (satisfied ev) (List.concat gs))).
Proof.
  induction gs as [|g gs IH]; intros v0 t Hv0 Hne Hgs; [contradiction|].
  simpl. rewrite (group_step_run ev op v0 t g Hv0).
  rewrite (group_value ev op g) by (intros c Hc; apply (Hgs g c); simpl; auto).
  rewrite combine_app.
  set (b := combine op (satisfied ev) g).
  set (t' := t ++ _).
  destruct (Bool.bool_dec b (is_any op)) as [Hb|Hb].
  - change (VBool b) with (VBool b); rewrite Hb.
    change (VBool (is_any op)) with (decisive op). rewrite run_skip; simpl.
    destruct op; reflexivity.
  - assert (Hb' : b = is_all op) by (destruct op, b; simpl in *; congruence).
    rewrite Hb'. destruct gs as [|g' gs'].
    + simpl. unfold combine; destruct op; reflexivity.
    + change (VBool (is_all op)) with (undecided op).
      rewrite (IH (undecided op) t' (continuing_undecided op));
        [destruct op; reflexivity | discriminate |].
      intros g0 c Hg0 Hc; apply (Hgs g0 c); simpl; auto.
Qed.

Lemma combine_members op f l1 l2 :
  (forall x, In x l1 <-> In x l2) -> combine op f l1 = combine op f l2.
Proof.
  intros H; unfold combine; destruct (is_all op); apply Bool.eq_iff_eq_true.
  - rewrite !forallb_forall; split; intros Hf x Hx; apply Hf, H, Hx.
  - rewrite !existsb_exists; split; intros (x & Hx & Hf); exists x;
      (split; [apply H, Hx | exact Hf]).
Qed.

Lemma grouped_members prio conds groups :
  grouped_by prio conds groups ->
  (forall c, In c conds -> prio c <> None) ->
  forall c, In c (List.concat groups) <-> In c conds.
Proof.
  intros (keys & -> & _ & Hkeys) Hall c; rewrite in_concat; split.
  - intros (g & Hg & Hc). apply in_map_iff in Hg; destruct Hg as (k & <- & _).
    apply filter_In in Hc; tauto.
  - intros Hc. destruct (prio c) as [k|] eqn:Hk; [|exfalso; exact (Hall c Hc Hk)].
    exists (filter (has_priority prio k) conds); split.
    + apply in_map_iff; exists k; split; [reflexivity|].
      apply Hkeys; exists c; auto.
    + apply filter_In; split; [exact Hc|].
      unfold has_priority; rewrite Hk; apply Z.eqb_refl.
Qed.

(** Without failures, a non-empty sibling list evaluates to the boolean
    "every"/"some" of its conditions, whatever their priorities. *)
Lemma prioritizeAndRun_boolean this e ev op conds :
  engine this = Some e ->
  conds <> [] ->
  (forall c, In c conds -> effectivePriority e c <> None) ->
  (forall c, In c conds -> exists v, result (ev c) = Ok v) ->
  result (prioritizeAndRun this ev conds op)
  = Ok (VBool (combine op (satisfied ev) conds)).
Proof.
  intros He Hne Hprio Hev.
  destruct (prioritizeConditions_grouped this e conds He Hprio)
    as (groups & Hr & Hgrouped).
  pose proof (grouped_members _ conds groups Hgrouped Hprio) as Hmem.
  rewrite prioritizeAndRun_eq, (result_bind_ok _ _ groups Hr); simpl.
  unfold Promise_resolve, ret.
  rewrite (run_value ev op groups).
  - rewrite (combine_members op (satisfied ev) _ conds Hmem); reflexivity.
  - destruct op; reflexivity.
  - intros ->. destruct conds as [|c conds]; [contradiction|].
    apply (proj2 (Hmem c) (or_introl eq_refl)).
  - intros g c Hg Hc. apply Hev, Hmem, in_concat; eauto.
Qed.

(** the value of the tree [{all: [{any: [A, B]}, C]}] from the values its
    three members evaluate to *)
Lemma nested_any_in_all_value :
  forall cev this e A B C (a b c : bool) pn pr,
    engine this = Some e ->
    conditions this = Some (Node All [Node Any [A; B] pn; C] pr) ->
    result (evaluateCondition cev this A) = Ok (VBool a) ->
    result (evaluateCondition cev this B) = Ok (VBool b) ->
    result (evaluateCondition cev this C) = Ok (VBool c) ->
    effectivePriority e A <> None ->
    effectivePriority e B <> None ->
    effectivePriority e C <> None ->
    effectivePriority e (Node Any [A; B] pn) <> None ->
    (forall v : bool, cev (Node Any [A; B] pn) (VBool v) = Ok (VBool v)) ->
    result (evaluate cev this) = Ok (VBool ((a || b) && c)).
Proof.
  intros cev this e A B C a b c pn pr He Hroot HA HB HC PA PB PC PN Hid.
  assert (Hinner : result (prioritizeAndRun this (evaluateCondition cev this)
                             [A; B] Any) = Ok (VBool (a || b))).
  { rewrite (prioritizeAndRun_boolean this e _ Any [A; B] He).
    - unfold combine, satisfied; simpl. rewrite HA, HB; simpl.
      destruct a, b; reflexivity.
    - discriminate.
    - intros x [<-|[<-|[]]]; assumption.
    - intros x [<-|[<-|[]]]; eauto. }
  assert (HN : result (evaluateCondition cev this (Node Any [A; B] pn))
               = Ok (VBool (a || b))).
  { rewrite evaluateCondition_node, (result_bind_ok _ _ _ Hinner); simpl.
    apply Hid. }
  unfold evaluate; rewrite Hroot; unfold all.
  rewrite (prioritizeAndRun_boolean this e _ All _ He).
  - unfold combine, satisfied; simpl. rewrite HN, HC; simpl.
    destruct a, b, c; reflexivity.
  - discriminate.
  - intros x [<-|[<-|[]]]; assumption.
  - intros x [<-|[<-|[]]]; eauto.
Qed.

Lemma leaf_result cev this e f p o v pr x (b : bool) :
  engine this = Some e ->
  factValue e (VStr f) p = Ok x ->
  cev (Leaf f p o v pr) x = Ok (VBool b) ->
  result (evaluateCondition cev this (Leaf f p o v pr)) = Ok (VBool b).
Proof.
  intros He Hx Hb. rewrite evaluateCondition_leaf.
  unfold engine_factValue; rewrite He.
  rewrite (result_bind_ok _ _ x); simpl; [exact Hb | exact Hx].
Qed.

(** C7. The tree [{all: [{any: [A, B]}, C]}] over three leaves: when the
    facts of A, B and C resolve to values on which their comparisons give
    the booleans [a], [b] and [c], every sibling has a priority to be
    grouped under, and the evaluator of the inner node leaves a boolean as
    it is, [evaluate] fulfils with [(a || b) && c]. *)
Theorem C7_nested_any_in_all :
  forall cev this e
         fa pa oa va pra fb pb ob vb prb fc pc oc vc prc
         xa xb xc (a b c : bool) pn pr,
    engine this = Some e ->
    conditions this
    = Some (Node All [Node Any [Leaf fa pa oa va pra; Leaf fb pb ob vb prb] pn;
                      Leaf fc pc oc vc prc] pr) ->
    factValue e (VStr fa) pa = Ok xa ->
    cev (Leaf fa pa oa va pra) xa = Ok (VBool a) ->
    factValue e (VStr fb) pb = Ok xb ->
    cev (Leaf fb pb ob vb prb) xb = Ok (VBool b) ->
    factValue e (VStr fc) pc = Ok xc ->
    cev (Leaf fc pc oc vc prc) xc = Ok (VBool c) ->
    effectivePriority e (Leaf fa pa oa va pra) <> None ->
    effectivePriority e (Leaf fb pb ob vb prb) <> None ->
    effectivePriority e (Leaf fc pc oc vc prc) <> None ->
    effectivePriority e
      (Node Any [Leaf fa pa oa va pra; Leaf fb pb ob vb prb] pn) <> None ->
    (forall v : bool,
       cev (Node Any [Leaf fa pa oa va pra; Leaf fb pb ob vb prb] pn) (VBool v)
       = Ok (VBool v)) ->
    result (evaluate cev this) = Ok (VBool ((a || b) && c)).
Proof.
  intros cev this e fa pa oa va pra fb pb ob vb prb fc pc oc vc prc
         xa xb xc a b c pn pr He Hroot Hxa Ha Hxb Hb Hxc Hc PA PB PC PN Hid.
  apply (nested_any_in_all_value cev this e
           (Leaf fa pa oa va pra) (Leaf fb pb ob vb prb) (Leaf fc pc oc vc prc)
           a b c pn pr He Hroot); try assumption.
  - exact (leaf_result cev this e fa pa oa va pra xa a He Hxa Ha).
  - exact (leaf_result cev this e fb pb ob vb prb xb b He Hxb Hb).
  - exact (leaf_result cev this e fc pc oc vc prc xc c He Hxc Hc).
Qed.

Lemma C7_witness :
  result (evaluate sample_evaluate
            (nested_rule (equal "a" 0 None) (equal "b" 2 None) (equal "c" 3 None)))
  = Ok (VBool ((false || true) && true)).
Proof.
  apply (C7_nested_any_in_all sample_evaluate
           (nested_rule (equal "a" 0 None) (equal "b" 2 None) (equal "c" 3 None))
           sample_engine
           "a"%string VUndefined "equal"%string (VNum 0) None
           "b"%string VUndefined "equal"%string (VNum 2) None
           "c"%string VUndefined "equal"%string (VNum 3) None
           (VNum 1) (VNum 2) (VNum 3)
           false true true (Some 1) (Some 1)).
  - reflexivity.
  - reflexivity.
  - reflexivity.
  - reflexivity.
  - reflexivity.
  - reflexivity.
  - reflexivity.
  - reflexivity.
  - discriminate.
  - discriminate.
  - discriminate.
  - discriminate.
  - intros [|]; reflexivity.
Defined.

(** the eight combinations, run on the sample facts *)
Example nested_truth_table :
  forall a b c : bool,
    result (evaluate sample_evaluate
              (nested_rule (equal "a" (if a then 1 else 0) None)
                           (equal "b" (if b then 2 else 0) (Some 3))
                           (equal "c" (if c then 3 else 0) None)))
    = Ok (VBool ((a || b) && c)).
Proof. intros [|] [|] [|]; reflexivity. Qed.

(** ** Repeated evaluation *)

Lemma reduce_ext {A B} (f g : B -> A -> Comp B) (l : list A) :
  (forall b a, f b a = g b a) -> forall b, reduce f l b = reduce g l b.
Proof.
  intros H; induction l as [|a l IH]; intros b; simpl; [reflexivity|].
  rewrite H. unfold bind. destruct (result (g b a)); [rewrite IH|]; reflexivity.
Qed.

Section SameProvider.

Variables (this : Rule) (e1 e2 : Engine).
Hypothesis same_facts : forall f, getFact e1 f = getFact e2 f.
Hypothesis same_values : forall f p, factValue e1 f p = factValue e2 f p.

Lemma priority_of_same c :
  priority_of (setEngine this e1) c = priority_of (setEngine this e2) c.
Proof.
  unfold priority_of, engine_getFact; simpl. rewrite same_facts; reflexivity.
Qed.

Lemma prioritizeConditions_same conds :
  prioritizeConditions (setEngine this e1) conds
  = prioritizeConditions (setEngine this e2) conds.
Proof.
  rewrite !prioritizeConditions_eq. f_equal.
  apply reduce_ext; intros s c. rewrite priority_of_same; reflexivity.
Qed.

Lemma evaluateConditionN_same cev : forall n c,
  evaluateConditionN cev (setEngine this e1) n c
  = evaluateConditionN cev (setEngine this e2) n c.
Proof.
  induction n as [|n IH]; intros c; [reflexivity|].
  destruct c as [f p o v pr | op cs pr]; simpl.
  - unfold engine_factValue; simpl. rewrite same_values; reflexivity.
  - unfold all, any.
    destruct op;
      rewrite (run_ext (setEngine this e1) (setEngine this e2)
                 (evaluateConditionN cev (setEngine this e1) n)
                 (evaluateConditionN cev (setEngine this e2) n) cs _
                 (prioritizeConditions_same cs) (fun c _ => IH c));
      reflexivity.
Qed.

Lemma evaluate_same cev :
  evaluate cev (setEngine this e1) = evaluate cev (setEngine this e2).
Proof.
  unfold evaluate; simpl.
  destruct (conditions this) as [[f p o v pr|[|] cs pr]|]; try reflexivity;
    unfold all, any; apply run_ext;
    try apply prioritizeConditions_same;
    intros c _; apply evaluateConditionN_same.
Qed.

End SameProvider.

(** *** A provider with state *)

Section StatefulRuns.

Context {St : Type}.

Lemma settles_ret {A} (a : A) :
  Stateful.settles_as (St:=St) (Stateful.run_ret a) (ret a).
Proof. intros s; reflexivity. Qed.

Lemma settles_throw {A} e :
  Stateful.settles_as (St:=St) (A:=A) (Stateful.run_throw e) (throw e).
Proof. intros s; reflexivity. Qed.

Lemma settles_bind {A B} (m : Stateful.Run A) (f : A -> Stateful.Run B) c g :
  Stateful.settles_as (St:=St) m c ->
  (forall a, Stateful.settles_as (f a) (g a)) ->
  Stateful.settles_as (Stateful.run_bind m f) (bind c g).
Proof.
  intros Hm Hf s; unfold Stateful.run_bind, bind.
  specialize (Hm s). destruct (m s) as [c' s1]; simpl in Hm; subst c'.
  destruct (result c) as [a|e]; [|reflexivity].
  specialize (Hf a s1). destruct (f a s1) as [d s2]; simpl in Hf; subst d.
  reflexivity.
Qed.

Lemma settles_reduce {A B} (F : B -> A -> Stateful.Run B) G (l : list A) :
  (forall acc x, Stateful.settles_as (St:=St) (F acc x) (G acc x)) ->
  forall acc, Stateful.settles_as (Stateful.run_reduce F l acc) (reduce G l acc).
Proof.
  intros H; induction l as [|x l IH]; intros acc; simpl.
  - apply settles_ret.
  - apply settles_bind; [apply H | exact IH].
Qed.

Lemma settles_Promise_all {A X} (F : X -> Stateful.Run A) G (l : list X) :
  (forall x, Stateful.settles_as (St:=St) (F x) (G x)) ->
  Stateful.settles_as (Stateful.run_Promise_all (map F l)) (Promise_all (map G l)).
Proof.
  intros H s; unfold Stateful.run_Promise_all.
  assert (Hall : forall s, fst (Stateful.start_all (map F l) s) = map G l).
  { clear s; induction l as [|x l IH]; intros s; simpl; [reflexivity|].
    specialize (H x s). destruct (F x s) as [c s1]; simpl in H; subst c.
    specialize (IH s1). destruct (Stateful.start_all (map F l) s1) as [cs s2].
    simpl in *; subst cs; reflexivity. }
  specialize (Hall s). destruct (Stateful.start_all (map F l) s) as [cs s'].
  simpl in *; subst cs; reflexivity.
Qed.

Lemma settles_fold {B X} (Step : Stateful.Run B -> X -> Stateful.Run B) step
    (l : list X) :
  (forall cur c x, Stateful.settles_as (St:=St) cur c ->
                   Stateful.settles_as (Step cur x) (step c x)) ->
  forall cur c, Stateful.settles_as cur c ->
                Stateful.settles_as (fold_left Step l cur) (fold_left step l c).
Proof.
  intros H; induction l as [|x l IH]; intros cur c Hc; simpl; [exact Hc|].
  apply IH, H, Hc.
Qed.

Variable provider : Stateful.Provider St.
Variable this : Rule.
Variable e : Engine.
Hypothesis attached : engine this = Some e.
Hypothesis same_facts :
  forall s fact, fst (Stateful.provider_getFact provider s fact) = getFact e fact.
Hypothesis same_values :
  forall s fact params,
    fst (Stateful.provider_factValue provider s fact params)
    = factValue e fact params.

Lemma settles_getFact fact :
  Stateful.settles_as (Stateful.engine_getFact provider fact)
                      (engine_getFact this fact).
Proof.
  intros s; unfold Stateful.engine_getFact, engine_getFact; rewrite attached.
  specialize (same_facts s fact).
  destruct (Stateful.provider_getFact provider s fact) as [found s'].
  simpl in *; subst found; reflexivity.
Qed.

Lemma settles_factValue fact params :
  Stateful.settles_as (Stateful.engine_factValue provider fact params)
                      (engine_factValue this fact params).
Proof.
  intros s; unfold Stateful.engine_factValue, engine_factValue; rewrite attached.
  specialize (same_values s fact params).
  destruct (Stateful.provider_factValue provider s fact params) as [r s'].
  simpl in *; subst r; reflexivity.
Qed.

Lemma settles_prioritizeConditions conds :
  Stateful.settles_as (Stateful.prioritizeConditions provider conds)
                      (prioritizeConditions this conds).
Proof.
  unfold Stateful.prioritizeConditions, prioritizeConditions.
  apply settles_bind; [|intros a; apply settles_ret].
  apply settles_reduce; intros acc c; cbv beta zeta.
  apply settles_bind; [|intros a; apply settles_ret].
  assert (Hfact : Stateful.settles_as
            (Stateful.run_bind (Stateful.engine_getFact provider (condition_fact c))
               (fun fact => match fact with
                            | None => Stateful.run_throw (UndefinedFact (condition_fact c))
                            | Some fact => Stateful.run_ret (fact_priority fact)
                            end))
            (fact <- engine_getFact this (condition_fact c) ;;
             match fact with
             | None => throw (UndefinedFact (condition_fact c))
             | Some fact => ret (fact_priority fact)
             end)).
  { apply settles_bind; [apply settles_getFact|].
    intros [fact|]; [apply settles_ret | apply settles_throw]. }
  destruct (condition_priority c) as [p|]; [destruct (p =? 0)|];
    try exact Hfact; apply settles_ret.
Qed.

Lemma settles_prioritizeAndRun EV ev conds op :
  (forall c, Stateful.settles_as (EV c) (ev c)) ->
  Stateful.settles_as (Stateful.prioritizeAndRun provider EV conds op)
                      (prioritizeAndRun this ev conds op).
Proof.
  intros Hev. unfold Stateful.prioritizeAndRun, prioritizeAndRun.
  apply settles_bind; [apply settles_prioritizeConditions|].
  intros groups; cbv zeta.
  apply (settles_fold
           (fun cursor set =>
              Stateful.run_bind cursor (fun setResult =>
                if (is_any op && strict_true setResult || false)%bool
                then Stateful.run_ret (VBool true)
                else if (is_all op && strict_false setResult || false)%bool
                     then Stateful.run_ret (VBool false)
                     else Stateful.evaluateConditions EV set
                            (if is_all op then Array_every else Array_some)))
           (fun cursor set =>
              setResult <- cursor ;;
              if (is_any op && strict_true setResult || false)%bool
              then ret (VBool true)
              else if (is_all op && strict_false setResult || false)%bool
                   then ret (VBool false)
                   else evaluateConditions ev set
                          (if is_all op then Array_every else Array_some)));
    [|apply settles_ret].
  intros cur c g Hc. apply settles_bind; [exact Hc|]. intros v.
  destruct (is_any op && strict_true v || false)%bool; [apply settles_ret|].
  destruct (is_all op && strict_false v || false)%bool; [apply settles_ret|].
  unfold Stateful.evaluateConditions, evaluateConditions.
  apply settles_bind; [|intros rs; apply settles_ret].
  apply (settles_Promise_all (fun c => EV c) (fun c => ev c)); exact Hev.
Qed.

Lemma settles_evaluateConditionN cev : forall n c,
  Stateful.settles_as (Stateful.evaluateConditionN cev provider n c)
                      (evaluateConditionN cev this n c).
Proof.
  induction n as [|n IH]; intros c; simpl; [apply settles_throw|].
  apply settles_bind; [|intros v s; reflexivity].
  destruct c as [f p o v pr | op cs pr]; [apply settles_factValue|].
  destruct op; unfold Stateful.all, Stateful.any, all, any;
    apply settles_prioritizeAndRun; exact IH.
Qed.

Lemma settles_evaluate cev rule :
  conditions rule = conditions this ->
  Stateful.settles_as (Stateful.evaluate cev provider rule) (evaluate cev this).
Proof.
  intros Hc; unfold Stateful.evaluate, evaluate; rewrite Hc.
  destruct (conditions this) as [[f p o v pr|[|] cs pr]|];
    try apply settles_throw;
    unfold Stateful.all, Stateful.any, all, any;
    apply settles_prioritizeAndRun; intros c;
    apply settles_evaluateConditionN.
Qed.

End StatefulRuns.

(** C9. A rule is evaluated twice in a row against one provider, the second
    time from the state in which the first evaluation left it.  When what
    the provider answers (the registered priorities, the resolved values)
    does not depend on its state, the two evaluations settle alike - the
    same boolean, or the same failure, after the same calls - and they
    settle as the evaluation against the provider's answers does. *)
Theorem C9_evaluate_is_repeatable :
  forall (St : Type) (provider : Stateful.Provider St) cev this (s0 : St),
    (forall s s' fact,
       fst (Stateful.provider_getFact provider s fact)
       = fst (Stateful.provider_getFact provider s' fact)) ->
    (forall s s' fact params,
       fst (Stateful.provider_factValue provider s fact params)
       = fst (Stateful.provider_factValue provider s' fact params)) ->
    let first := Stateful.evaluate cev provider this s0 in
    let second := Stateful.evaluate cev provider this (snd first) in
    fst second = fst first
    /\ fst first = evaluate cev (setEngine this (Stateful.answers provider s0)).
Proof.
  intros St provider cev this s0 Hfacts Hvalues first second.
  assert (Hs : Stateful.settles_as (Stateful.evaluate cev provider this)
                 (evaluate cev (setEngine this (Stateful.answers provider s0)))).
  { apply (settles_evaluate provider
             (setEngine this (Stateful.answers provider s0))
             (Stateful.answers provider s0)).
    - reflexivity.
    - intros s fact; apply Hfacts.
    - intros s fact params; apply Hvalues.
    - reflexivity. }
  unfold second, first. rewrite !Hs. split; reflexivity.
Qed.

Lemma C9_witness :
  fst (Stateful.evaluate sample_evaluate counting_provider
         (nested_rule (equal "a" 0 None) (equal "b" 2 None) (equal "c" 3 None))
         (snd (Stateful.evaluate sample_evaluate counting_provider
                 (nested_rule (equal "a" 0 None) (equal "b" 2 None)
                              (equal "c" 3 None)) 0%nat)))
  = fst (Stateful.evaluate sample_evaluate counting_provider
           (nested_rule (equal "a" 0 None) (equal "b" 2 None) (equal "c" 3 None))
           0%nat)
  /\ fst (Stateful.evaluate sample_evaluate counting_provider
            (nested_rule (equal "a" 0 None) (equal "b" 2 None) (equal "c" 3 None))
            0%nat)
     = evaluate sample_evaluate
         (setEngine
            (nested_rule (equal "a" 0 None) (equal "b" 2 None) (equal "c" 3 None))
            (Stateful.answers counting_provider 0%nat)).
Proof.
  apply (C9_evaluate_is_repeatable nat counting_provider sample_evaluate
           (nested_rule (equal "a" 0 None) (equal "b" 2 None) (equal "c" 3 None))
           0%nat).
  - intros s s' fact; reflexivity.
  - intros s s' fact params; reflexivity.
Defined.

(** on the sample: both evaluations give [true]; the provider has answered
    six calls after the first and twelve after the second *)
Example evaluate_twice_on_the_sample :
  Stateful.evaluate sample_evaluate counting_provider
    (nested_rule (equal "a" 0 None) (equal "b" 2 None) (equal "c" 3 None)) 0%nat
  = (mkComp (Ok (VBool true))
            [GetFact (VStr "c"); GetFact (VStr "a"); GetFact (VStr "b");
             FactValue (VStr "a") VUndefined; FactValue (VStr "b") VUndefined;
             FactValue (VStr "c") VUndefined], 6%nat)
  /\ Stateful.evaluate sample_evaluate counting_provider
       (nested_rule (equal "a" 0 None) (equal "b" 2 None) (equal "c" 3 None)) 6%nat
     = (mkComp (Ok (VBool true))
               [GetFact (VStr "c"); GetFact (VStr "a"); GetFact (VStr "b");
                FactValue (VStr "a") VUndefined; FactValue (VStr "b") VUndefined;
                FactValue (VStr "c") VUndefined], 12%nat).
Proof. split; reflexivity. Qed.

(** a provider whose answers do depend on its state: the first evaluation
    finds the fact at 1, the second at 2, and the results differ *)
Example evaluate_twice_against_a_changing_provider :
  fst (Stateful.evaluate sample_evaluate
         (Stateful.mkProvider
            (fun (calls : nat) fact => (Some (mkFact 1), calls))
            (fun calls fact params => (Ok (VNum (Z.of_nat (S calls))), S calls)))
         (mkRule (VNum 1) (Some (Node All [equal "n" 1 None] None)) [] None) 0%nat)
  = mkComp (Ok (VBool true))
           [GetFact (VStr "n"); FactValue (VStr "n") VUndefined]
  /\ fst (Stateful.evaluate sample_evaluate
            (Stateful.mkProvider
               (fun (calls : nat) fact => (Some (mkFact 1), calls))
               (fun calls fact params => (Ok (VNum (Z.of_nat (S calls))), S calls)))
            (mkRule (VNum 1) (Some (Node All [equal "n" 1 None] None)) [] None) 1%nat)
     = mkComp (Ok (VBool false))
              [GetFact (VStr "n"); FactValue (VStr "n") VUndefined].
Proof. split; reflexivity. Qed.

(** ** Priorities of rules *)

(** [setPriority] rejects whatever [parseInt] reads as an integer below 1 *)
Lemma setPriority_rejects this p z :
  parseInt p = VNum z -> z <= 0 -> setPriority this p = Err PriorityError.
Proof.
  intros Hp Hz; unfold setPriority; rewrite Hp; simpl.
  destruct (z <=? 0) eqn:E; [reflexivity | lia].
Qed.

(** and stores an integer from 1 on (below 10^21) as it is *)
Lemma setPriority_accepts this z :
  1 <= z -> z < 10 ^ 21 ->
  setPriority this (VNum z)
  = Ok (mkRule (VNum z) (conditions this) (event this) (engine this)).
Proof.
  intros Hz Hlt; unfold setPriority, parseInt.
  destruct (Z.abs z <? 10 ^ 21) eqn:Ha; [|lia]. simpl.
  destruct (z <=? 0) eqn:E; [lia | reflexivity].
Qed.

Example setPriority_on_strings :
  setPriority new_Rule (VStr "0") = Err PriorityError
  /\ setPriority new_Rule (VStr "  -3abc") = Err PriorityError
  /\ setPriority new_Rule (VStr "7") = Ok (mkRule (VNum 7) None [] None)
  /\ setPriority new_Rule (VStr "abc") = Ok (mkRule VNaN None [] None).
Proof. repeat split. Qed.

Section ConstructorPriority.

Variable RawConditions : Type.
Variable hasOwnProperty : RawConditions -> string -> bool.
Variable newCondition : RawConditions -> Result Condition.
Variable JSON_parse : string -> Result (option (Options RawConditions)).

(** a truthy priority option that reads as an integer below 1 makes the
    constructor fail *)
Lemma constructor_rejects (o : Options RawConditions) z :
  truthy (opt_priority o) = true ->
  parseInt (opt_priority o) = VNum z ->
  z <= 0 ->
  exists e,
    constructor hasOwnProperty newCondition JSON_parse (inr (Some o)) = Err e.
Proof.
  intros Ht Hp Hz; unfold constructor, rbind, js_or; rewrite Ht.
  destruct (match opt_conditions o with
            | Some c => setConditions hasOwnProperty newCondition new_Rule c
            | None => Ok new_Rule
            end) as [this|e]; [|eauto].
  rewrite (setPriority_rejects this (opt_priority o) z Hp Hz); eauto.
Qed.

(** C4, at the priority 0: [setPriority(0)] fails with the configuration
    error, but [new Rule({priority: 0})] does not: the option is replaced by
    the default before [setPriority] sees it, and the rule is built with
    priority 1. *)
Theorem C4_constructor_defaults_priority_zero :
  setPriority new_Rule (VNum 0) = Err PriorityError
  /\ constructor hasOwnProperty newCondition JSON_parse
       (inr (Some (mkOptions None (VNum 0) None)))
     = Ok (mkRule (VNum 1) None [("type", VStr "unknown")]%string None).
Proof. split; reflexivity. Qed.

End ConstructorPriority.

(** * Further properties *)

(** ** Configuration *)

Lemma parseInt_range v : parseInt v = VNaN \/ exists z, parseInt v = VNum z.
Proof.
  destruct v as [| |b|z| |s]; unfold parseInt; eauto.
  - destruct (Z.abs z <? 10 ^ 21); eauto.
  - unfold parseInt_string.
    destruct (match trim_start s with
              | String "-"%char r => (-1, r)
              | String "+"%char r => (1, r)
              | _ => (1, trim_start s)
              end) as [sign rest].
    destruct (read_digits rest None); eauto.
Qed.

(** [parseInt] reads a safe priority back as it is *)
Lemma parseInt_safe v :
  valid_priority v -> safe_priority v -> parseInt v = v.
Proof.
  intros [->|(z & -> & Hz)] Hsafe; [reflexivity|].
  destruct Hsafe as [H|(z' & H & Hz')]; [discriminate|].
  injection H as <-. unfold parseInt.
  assert (H53 : 2 ^ 53 = 9007199254740992) by reflexivity.
  assert (H21 : 10 ^ 21 = 1000000000000000000000) by reflexivity.
  destruct (Z.abs z <? 10 ^ 21) eqn:E; [reflexivity|].
  apply Z.ltb_ge in E. lia.
Qed.

(** X1. [setPriority] fails exactly when [parseInt] reads its argument as
    an integer below 1, and then with the priority error. *)
Theorem X1_setPriority_fails_iff :
  forall this p e,
    setPriority this p = Err e
    <-> e = PriorityError /\ exists z, parseInt p = VNum z /\ z <= 0.
Proof.
  intros this p e; unfold setPriority; split.
  - destruct (parseInt p) as [| |b|z| |s] eqn:Hp; simpl; try discriminate.
    destruct (z <=? 0) eqn:Hz; [|discriminate].
    intros H; injection H as <-. split; [reflexivity|].
    exists z; split; [reflexivity | lia].
  - intros (-> & z & -> & Hz); simpl.
    destruct (z <=? 0) eqn:E; [reflexivity | lia].
Qed.

Lemma X1_witness : setPriority sample_rule (VStr " -2nd") = Err PriorityError.
Proof.
  apply (proj2 (X1_setPriority_fails_iff sample_rule (VStr " -2nd") PriorityError)).
  split; [reflexivity|]. exists (-2); split; [reflexivity | lia].
Defined.

Lemma setPriority_stores this p r :
  setPriority this p = Ok r ->
  priority r = parseInt p
  /\ valid_priority (priority r)
  /\ conditions r = conditions this
  /\ event r = event this
  /\ engine r = engine this.
Proof.
  unfold setPriority.
  destruct (le_zero (parseInt p)) eqn:Hle; [discriminate|].
  intros H; injection H as <-; simpl.
  repeat split.
  destruct (parseInt_range p) as [H|(z & H)]; rewrite H in *;
    [left; reflexivity|].
  right; exists z; split; [reflexivity|]. simpl in Hle. lia.
Qed.

(** X2. When [setPriority] succeeds, the rule holds what [parseInt] read, a
    valid priority; its conditions, event and engine are untouched; and when
    the stored priority is NaN or at most 2^53, setting the priority again
    to the stored one changes nothing. *)
Theorem X2_setPriority_stores_and_is_idempotent :
  forall this p r,
    setPriority this p = Ok r ->
    priority r = parseInt p
    /\ valid_priority (priority r)
    /\ conditions r = conditions this
    /\ event r = event this
    /\ engine r = engine this
    /\ (safe_priority (priority r) -> setPriority r (priority r) = Ok r).
Proof.
  intros this p r Hr.
  destruct (setPriority_stores this p r Hr) as (Hp & Hvalid & Hc & He & Hg).
  repeat split; try assumption.
  intros Hsafe. unfold setPriority.
  rewrite (parseInt_safe (priority r) Hvalid Hsafe).
  assert (Hle : le_zero (priority r) = false).
  { destruct Hvalid as [->|(z & -> & Hz)]; simpl; [reflexivity|].
    destruct (z <=? 0) eqn:E; [lia | reflexivity]. }
  rewrite Hle. destruct r; reflexivity.
Qed.

(** beyond the safe range the stored priority is not read back: a numeral
    of 22 digits is stored as 10^21, and setting that again stores 1 *)
Example setPriority_beyond_the_safe_range :
  setPriority new_Rule (VStr "1000000000000000000000")
  = Ok (mkRule (VNum (10 ^ 21)) None [] None)
  /\ setPriority (mkRule (VNum (10 ^ 21)) None [] None) (VNum (10 ^ 21))
     = Ok (mkRule (VNum 1) None [] None).
Proof. split; reflexivity. Qed.

Lemma X2_witness :
  priority (mkRule (VNum 12) None [] (Some sample_engine)) = parseInt (VStr "12px")
  /\ valid_priority (priority (mkRule (VNum 12) None [] (Some sample_engine)))
  /\ conditions (mkRule (VNum 12) None [] (Some sample_engine)) = conditions sample_rule
  /\ event (mkRule (VNum 12) None [] (Some sample_engine))
     = event (mkRule (VNum 1) None [] (Some sample_engine))
  /\ engine (mkRule (VNum 12) None [] (Some sample_engine))
     = engine (mkRule (VNum 1) None [] (Some sample_engine))
  /\ (safe_priority (priority (mkRule (VNum 12) None [] (Some sample_engine))) ->
      setPriority (mkRule (VNum 12) None [] (Some sample_engine))
        (priority (mkRule (VNum 12) None [] (Some sample_engine)))
      = Ok (mkRule (VNum 12) None [] (Some sample_engine))).
Proof.
  apply (X2_setPriority_stores_and_is_idempotent
           (mkRule (VNum 1) None [] (Some sample_engine)) (VStr "12px")
           (mkRule (VNum 12) None [] (Some sample_engine))).
  reflexivity.
Defined.

Lemma only_spec keys (o : Object) k v :
  In (k, v) (only keys o) <-> In (k, v) o /\ In k keys.
Proof.
  unfold only; rewrite filter_In; simpl. rewrite existsb_exists.
  split; intros (Hin & H); (split; [exact Hin|]).
  - destruct H as (k' & Hk' & Heq). apply String.eqb_eq in Heq; subst; exact Hk'.
  - exists k; split; [exact H | apply String.eqb_refl].
Qed.

Lemma filter_idempotent {A} (f : A -> bool) (l : list A) :
  filter f (filter f l) = filter f l.
Proof.
  induction l as [|x l IH]; simpl; [reflexivity|].
  destruct (f x) eqn:E; simpl; [rewrite E, IH|]; auto.
Qed.

Lemma setEvent_stores this ev :
  exists r,
    setEvent this (Some ev) = Ok r
    /\ (forall k v, In (k, v) (event r)
                    <-> In (k, v) ev /\ (k = "type" \/ k = "params")%string)
    /\ priority r = priority this
    /\ conditions r = conditions this
    /\ engine r = engine this
    /\ setEvent r (Some (event r)) = Ok r.
Proof.
  eexists; split; [reflexivity|]; simpl.
  split; [|repeat split].
  - intros k v; rewrite only_spec; simpl.
    split; intros (Hin & Hk); (split; [exact Hin|]).
    + destruct Hk as [<-|[<-|[]]]; auto.
    + destruct Hk as [->| ->]; auto.
  - unfold only; rewrite filter_idempotent; reflexivity.
Qed.

(** X7. [setEvent] fails, with a type error, on [undefined] and [null].
    On an event object it succeeds: the stored event holds exactly the
    [type] and [params] entries of the given one, the other fields of the
    rule are untouched, and storing the stored event again changes
    nothing. *)
Theorem X7_setEvent_keeps_type_and_params_only :
  forall this,
    setEvent this None = Err TypeError
    /\ forall ev,
         exists r,
           setEvent this (Some ev) = Ok r
           /\ (forall k v, In (k, v) (event r)
                           <-> In (k, v) ev /\ (k = "type" \/ k = "params")%string)
           /\ priority r = priority this
           /\ conditions r = conditions this
           /\ engine r = engine this
           /\ setEvent r (Some (event r)) = Ok r.
Proof.
  intros this; split; [reflexivity | exact (setEvent_stores this)].
Qed.

Section Construction.

Variable RawConditions : Type.
Variable hasOwnProperty : RawConditions -> string -> bool.
Variable newCondition : RawConditions -> Result Condition.
Variable JSON_parse : string -> Result (option (Options RawConditions)).

Lemma setConditions_fields this c r :
  setConditions hasOwnProperty newCondition this c = Ok r ->
  priority r = priority this /\ event r = event this /\ engine r = engine this.
Proof.
  unfold setConditions.
  destruct (negb (hasOwnProperty c "all") && negb (hasOwnProperty c "any"))%bool;
    [discriminate|].
  destruct (newCondition c); [|discriminate].
  intros H; injection H as <-; auto.
Qed.

(** the options the constructor body works with *)
Lemma constructor_text text :
  constructor hasOwnProperty newCondition JSON_parse (inl text)
  = match JSON_parse text with
    | Ok o => constructor hasOwnProperty newCondition JSON_parse (inr o)
    | Err e => Err e
    end.
Proof. unfold constructor, rbind; destruct (JSON_parse text); reflexivity. Qed.

Lemma constructor_object_ok o r :
  constructor hasOwnProperty newCondition JSON_parse (inr o) = Ok r ->
  exists this1 this2,
    engine this1 = None
    /\ setPriority this1
         (js_or (match o with Some o' => opt_priority o' | None => VUndefined end)
                (VNum 1)) = Ok this2
    /\ exists ev, setEvent this2 (Some ev) = Ok r.
Proof.
  unfold constructor, rbind.
  destruct (match o with
            | Some o' =>
                match opt_conditions o' with
                | Some c => setConditions hasOwnProperty newCondition new_Rule c
                | None => Ok new_Rule
                end
            | None => Ok new_Rule
            end) as [this1|e] eqn:H1; [|discriminate].
  destruct (setPriority this1 _) as [this2|e] eqn:H2; [|discriminate].
  intros H3. exists this1, this2; split; [|split; [exact H2 | eauto]].
  destruct o as [o'|]; [|injection H1 as <-; reflexivity].
  destruct (opt_conditions o') as [c|]; [|injection H1 as <-; reflexivity].
  apply setConditions_fields in H1; simpl in H1. tauto.
Qed.

(** X3. Every rule the constructor returns has a valid priority (NaN or an
    integer from 1 on), an event restricted to [type] and [params], and no
    engine: the engine is only ever attached by [setEngine]. *)
Theorem X3_constructed_rule_invariants :
  forall options r,
    constructor hasOwnProperty newCondition JSON_parse options = Ok r ->
    valid_priority (priority r)
    /\ engine r = None
    /\ forall k v, In (k, v) (event r) -> (k = "type" \/ k = "params")%string.
Proof.
  intros options r H.
  assert (Hobj : exists o,
             constructor hasOwnProperty newCondition JSON_parse (inr o) = Ok r).
  { destruct options as [text|o]; [|eauto].
    rewrite constructor_text in H. destruct (JSON_parse text); [eauto|discriminate]. }
  destruct Hobj as (o & Ho).
  destruct (constructor_object_ok o r Ho) as (this1 & this2 & He & Hp & ev & Hev).
  destruct (setPriority_stores this1 _ this2 Hp)
    as (_ & Hvalid & _ & _ & Heng).
  destruct (setEvent_stores this2 ev)
    as (r' & Hr' & Hkeys & Hprio & _ & Heng' & _).
  rewrite Hev in Hr'; injection Hr' as <-.
  rewrite Hprio, Heng', Heng, He. split; [exact Hvalid|]. split; [reflexivity|].
  intros k v Hin; apply (Hkeys k v); exact Hin.
Qed.

(** X4. With no options, or with a priority option that is falsy (absent,
    0, NaN, null, false or the empty string), a rule that is constructed has
    priority 1. *)
Theorem X4_constructor_default_priority :
  forall o r,
    constructor hasOwnProperty newCondition JSON_parse (inr o) = Ok r ->
    match o with Some o' => truthy (opt_priority o') = false | None => True end ->
    priority r = VNum 1.
Proof.
  intros o r Ho Hfalsy.
  destruct (constructor_object_ok o r Ho) as (this1 & this2 & _ & Hp & ev & Hev).
  assert (Hor : js_or (match o with Some o' => opt_priority o' | None => VUndefined end)
                     (VNum 1) = VNum 1).
  { unfold js_or; destruct o as [o'|]; [rewrite Hfalsy|]; reflexivity. }
  rewrite Hor in Hp. injection Hp as <-. injection Hev as <-. reflexivity.
Qed.

(** X5. The conditions are installed before the priority is looked at: when
    the given conditions have neither an [all] nor an [any] key, the
    constructor fails with the conditions error, whatever the priority. *)
Theorem X5_constructor_checks_conditions_first :
  forall o c,
    opt_conditions o = Some c ->
    hasOwnProperty c "all" = false ->
    hasOwnProperty c "any" = false ->
    constructor hasOwnProperty newCondition JSON_parse (inr (Some o))
    = Err ConditionsRootError.
Proof.
  intros o c Hc Hall Hany.
  unfold constructor, rbind, setConditions; rewrite Hc, Hall, Hany; reflexivity.
Qed.

(** X6. [setConditions] succeeds exactly when the tree has an [all] or an
    [any] key and the condition model accepts it; the rule then holds the
    condition built from it and nothing else has changed.  Without either
    key it fails with the conditions error. *)
Theorem X6_setConditions_succeeds_iff :
  forall this c,
    (forall r,
       setConditions hasOwnProperty newCondition this c = Ok r
       <-> (hasOwnProperty c "all" = true \/ hasOwnProperty c "any" = true)
           /\ exists cond,
                newCondition c = Ok cond
                /\ r = mkRule (priority this) (Some cond) (event this) (engine this))
    /\ (hasOwnProperty c "all" = false -> hasOwnProperty c "any" = false ->
        setConditions hasOwnProperty newCondition this c = Err ConditionsRootError).
Proof.
  intros this c; unfold setConditions; split.
  - intros r; split.
    + destruct (hasOwnProperty c "all"), (hasOwnProperty c "any"); simpl;
        try discriminate;
        (destruct (newCondition c) as [cond|e]; [|discriminate]);
        intros H; injection H as <-; split; eauto.
    + intros (Hkey & cond & Hcond & ->); rewrite Hcond.
      destruct Hkey as [-> | ->]; simpl; [reflexivity|].
      rewrite andb_false_r; reflexivity.
  - intros -> ->; reflexivity.
Qed.

End Construction.

Lemma X3_witness :
  valid_priority (priority (mkRule (VNum 3) (Some (Node All [] None))
                                   [("type", VStr "alert")]%string None))
  /\ engine (mkRule (VNum 3) (Some (Node All [] None))
                    [("type", VStr "alert")]%string None) = None
  /\ forall k v,
       In (k, v) (event (mkRule (VNum 3) (Some (Node All [] None))
                                [("type", VStr "alert")]%string None)) ->
       (k = "type" \/ k = "params")%string.
Proof.
  apply (X3_constructed_rule_invariants
           Condition sample_hasOwnProperty sample_newCondition sample_JSON_parse
           (inr (Some (mkOptions (Some (Node All [] None)) (VStr "3")
                                 (Some [("type", VStr "alert");
                                        ("extra", VNum 1)]%string))))).
  reflexivity.
Defined.

Lemma X4_witness :
  priority (mkRule (VNum 1) None [("type", VStr "unknown")]%string None) = VNum 1.
Proof.
  apply (X4_constructor_default_priority
           Condition sample_hasOwnProperty sample_newCondition sample_JSON_parse
           (Some (mkOptions None (VStr "") None))).
  - reflexivity.
  - reflexivity.
Defined.

Lemma X5_witness :
  constructor sample_hasOwnProperty sample_newCondition sample_JSON_parse
    (inr (Some (mkOptions (Some (equal "a" 1 None)) (VNum (-4)) None)))
  = Err ConditionsRootError.
Proof.
  apply (X5_constructor_checks_conditions_first
           Condition sample_hasOwnProperty sample_newCondition sample_JSON_parse
           (mkOptions (Some (equal "a" 1 None)) (VNum (-4)) None)
           (equal "a" 1 None)).
  - reflexivity.
  - reflexivity.
  - reflexivity.
Defined.

Lemma X6_witness :
  setConditions sample_hasOwnProperty sample_newCondition sample_rule
    (Node Any [equal "a" 1 None] None)
  = Ok (mkRule (VNum 1) (Some (Node Any [equal "a" 1 None] None))
               [("type", VStr "unknown")]%string (Some sample_engine)).
Proof.
  apply (proj2 (proj1 (X6_setConditions_succeeds_iff
                         Condition sample_hasOwnProperty sample_newCondition sample_rule
                         (Node Any [equal "a" 1 None] None)) _)).
  split; [right; reflexivity|].
  exists (Node Any [equal "a" 1 None] None); split; reflexivity.
Defined.

(** ** Which provider calls a run can make *)

Lemma prioritizeConditions_trace_Forall (P : Event -> Prop) this conds :
  (forall c, In c conds -> Forall P (trace (priority_of this c))) ->
  Forall P (trace (prioritizeConditions this conds)).
Proof.
  intros Hp. rewrite prioritizeConditions_eq.
  apply trace_bind_Forall; [|intros; constructor].
  generalize (@nil (Z * list Condition)).
  induction conds as [|c conds IH]; intros s; simpl; [constructor|].
  apply trace_bind_Forall.
  - apply trace_bind_Forall; [apply Hp; simpl; auto | intros; constructor].
  - intros a; apply IH. intros c' Hc'; apply Hp; simpl; auto.
Qed.

Lemma run_trace_Forall (P : Event -> Prop) ev op gs : forall c0,
  Forall P (trace c0) ->
  (forall g c, In g gs -> In c g -> Forall P (trace (ev c))) ->
  Forall P (trace (fold_left (group_step ev op) gs c0)).
Proof.
  induction gs as [|g gs IH]; intros c0 Hc0 Hgs; simpl; [exact Hc0|].
  apply IH; [|intros g' c Hg' Hc; apply (Hgs g' c); simpl; auto].
  unfold group_step. apply trace_bind_Forall; [exact Hc0|].
  intros v.
  destruct (is_any op && strict_true v || false)%bool; [constructor|].
  destruct (is_all op && strict_false v || false)%bool; [constructor|].
  rewrite evaluateConditions_trace. apply Forall_forall; intros call Hcall.
  apply in_flat_map in Hcall; destruct Hcall as (c & Hc & Hin).
  pose proof (Hgs g c (or_introl eq_refl) Hc) as Hf.
  rewrite Forall_forall in Hf; exact (Hf call Hin).
Qed.

Lemma prioritizeAndRun_trace_Forall (P : Event -> Prop) this ev conds op :
  Forall P (trace (prioritizeConditions this conds)) ->
  (forall c, In c conds -> Forall P (trace (ev c))) ->
  Forall P (trace (prioritizeAndRun this ev conds op)).
Proof.
  intros Hp Hev. rewrite prioritizeAndRun_eq; unfold bind.
  destruct (result (prioritizeConditions this conds)) as [groups|e] eqn:Hr;
    simpl; [|exact Hp].
  apply Forall_app; split; [exact Hp|].
  apply run_trace_Forall; [constructor|].
  intros g c Hg Hc.
  apply Hev, (prioritizeConditions_members this conds groups Hr g c Hg Hc).
Qed.

Lemma priority_of_calls this c :
  incl (trace (priority_of this c)) (grouping_call c).
Proof.
  unfold priority_of, grouping_call, engine_getFact, bind.
  destruct (condition_priority c) as [q|]; [destruct (q =? 0)|];
    try apply incl_refl;
    destruct (engine this) as [e|]; simpl;
    try destruct (getFact e (condition_fact c)); simpl;
    try apply incl_refl; intros x [].
Qed.

(** X8. A run calls the provider for its own sibling list only: every call
    it makes is either the [getFact] call of the grouping for one of the
    siblings, or a call made by the evaluation of one of the siblings. *)
Theorem X8_calls_come_from_the_siblings :
  forall this ev conds op call,
    In call (trace (prioritizeAndRun this ev conds op)) ->
    (exists c, In c conds /\ In call (grouping_call c))
    \/ (exists c, In c conds /\ In call (trace (ev c))).
Proof.
  intros this ev conds op.
  apply Forall_forall, prioritizeAndRun_trace_Forall.
  - eapply Forall_impl; [intros a H; left; exact H|].
    apply (prioritizeConditions_trace_Forall
             (fun call => exists c, In c conds /\ In call (grouping_call c))).
    intros c Hc; apply Forall_forall; intros call Hcall.
    exists c; split; [exact Hc | apply (priority_of_calls this c), Hcall].
  - intros c Hc; apply Forall_forall; intros call Hcall.
    right; exists c; auto.
Qed.

Lemma X8_witness :
  (exists c, In c [equal "a" 1 (Some 7); equal "b" 2 None]
             /\ In (FactValue (VStr "a") VUndefined) (grouping_call c))
  \/ (exists c, In c [equal "a" 1 (Some 7); equal "b" 2 None]
                /\ In (FactValue (VStr "a") VUndefined)
                      (trace (evaluateCondition sample_evaluate sample_rule c))).
Proof.
  apply (X8_calls_come_from_the_siblings sample_rule
           (evaluateCondition sample_evaluate sample_rule)
           [equal "a" 1 (Some 7); equal "b" 2 None] All
           (FactValue (VStr "a") VUndefined)).
  simpl; auto.
Defined.

(** ** The calls and the failure of the grouping *)

Lemma priority_of_trace this e c :
  engine this = Some e -> trace (priority_of this c) = grouping_call c.
Proof.
  unfold priority_of, grouping_call, engine_getFact, bind; intros ->.
  destruct (condition_priority c) as [q|]; [destruct (q =? 0)|];
    try reflexivity; simpl;
    destruct (getFact e (condition_fact c)); reflexivity.
Qed.

Lemma reduce_calls this e todo : forall s,
  engine this = Some e ->
  (forall c, In c todo -> effectivePriority e c <> None) ->
  trace (reduce (fun sets c =>
           p <- priority_of this c ;; ret (sets_push sets p c)) todo s)
  = grouping_calls todo.
Proof.
  induction todo as [|c todo IH]; intros s He Hall; [reflexivity|].
  destruct (effectivePriority e c) as [p|] eqn:Hp;
    [|exfalso; apply (Hall c); simpl; auto].
  pose proof (priority_of_ok this e c p He Hp) as Hr.
  simpl.
  rewrite (result_bind_ok _ _ (sets_push s p c)); simpl.
  - rewrite (result_bind_ok _ _ p Hr); simpl.
    rewrite (priority_of_trace this e c He), app_nil_r.
    unfold grouping_calls in IH; rewrite IH; auto.
    intros c' Hc'; apply Hall; simpl; auto.
  - rewrite (result_bind_ok _ _ p Hr); reflexivity.
Qed.

Lemma prioritizeConditions_calls this e conds :
  engine this = Some e ->
  (forall c, In c conds -> effectivePriority e c <> None) ->
  trace (prioritizeConditions this conds) = grouping_calls conds.
Proof.
  intros He Hall.
  destruct (reduce_filed this e conds [] [] He (filed_nil _) Hall) as (s & Hs & _).
  rewrite prioritizeConditions_eq, (result_bind_ok _ _ s Hs); simpl.
  rewrite (reduce_calls this e conds [] He Hall), app_nil_r; reflexivity.
Qed.

(** X9. With an engine attached and every sibling having a priority to be
    filed under, the grouping asks [getFact] once for each condition whose
    own priority is falsy, in list order (also when several share a fact),
    and for no other condition. *)
Theorem X9_grouping_asks_once_per_condition_without_priority :
  forall this e conds,
    engine this = Some e ->
    (forall c, In c conds -> effectivePriority e c <> None) ->
    trace (prioritizeConditions this conds) = grouping_calls conds.
Proof. exact prioritizeConditions_calls. Qed.

Lemma X9_witness :
  trace (prioritizeConditions sample_rule
           [equal "a" 1 None; equal "b" 2 (Some 4); equal "a" 3 (Some 0)])
  = grouping_calls [equal "a" 1 None; equal "b" 2 (Some 4); equal "a" 3 (Some 0)].
Proof.
  apply (X9_grouping_asks_once_per_condition_without_priority
           sample_rule sample_engine
           [equal "a" 1 None; equal "b" 2 (Some 4); equal "a" 3 (Some 0)]).
  - reflexivity.
  - intros c [<-|[<-|[<-|[]]]]; discriminate.
Defined.

Lemma effectivePriority_none_call e c :
  effectivePriority e c = None -> grouping_call c = [GetFact (condition_fact c)].
Proof.
  unfold effectivePriority, grouping_call.
  destruct (condition_priority c) as [q|]; [destruct (q =? 0)|];
    intros H; try reflexivity; discriminate.
Qed.

Lemma reduce_first_undefined this e before c after : forall s,
  engine this = Some e ->
  (forall c', In c' before -> effectivePriority e c' <> None) ->
  effectivePriority e c = None ->
  reduce (fun sets c =>
            p <- priority_of this c ;; ret (sets_push sets p c))
         (before ++ c :: after) s
  = mkComp (Err (UndefinedFact (condition_fact c)))
           (grouping_calls (before ++ [c])).
Proof.
  induction before as [|b before IH]; intros s He Hbefore Hc; simpl.
  - rewrite (priority_of_err this e c He Hc).
    unfold grouping_calls; simpl.
    rewrite (effectivePriority_none_call e c Hc); reflexivity.
  - destruct (effectivePriority e b) as [p|] eqn:Hp;
      [|exfalso; apply (Hbefore b); simpl; auto].
    pose proof (priority_of_ok this e b p He Hp) as Hr.
    assert (Hstep : (p0 <- priority_of this b ;; ret (sets_push s p0 b))
                    = mkComp (Ok (sets_push s p b)) (grouping_call b)).
    { rewrite (result_bind_ok _ _ p Hr); simpl.
      rewrite (priority_of_trace this e b He), app_nil_r; reflexivity. }
    rewrite Hstep; unfold bind at 1; simpl.
    rewrite (IH (sets_push s p b) He
               (fun c' Hc' => Hbefore c' (or_intror Hc')) Hc); reflexivity.
Qed.

(** X10. The grouping stops at the first sibling, in list order, that has
    neither a usable own priority nor a registered fact: the run fails with
    the undefined-fact error naming that condition's fact, having asked
    [getFact] only for the conditions up to it and evaluated nothing. *)
Theorem X10_undefined_fact_names_the_first_offender :
  forall this e ev op before c after,
    engine this = Some e ->
    (forall c', In c' before -> effectivePriority e c' <> None) ->
    effectivePriority e c = None ->
    prioritizeAndRun this ev (before ++ c :: after) op
    = mkComp (Err (UndefinedFact (condition_fact c)))
             (grouping_calls (before ++ [c])).
Proof.
  intros this e ev op before c after He Hbefore Hc.
  rewrite prioritizeAndRun_eq, prioritizeConditions_eq.
  rewrite (reduce_first_undefined this e before c after [] He Hbefore Hc).
  reflexivity.
Qed.

Lemma X10_witness :
  prioritizeAndRun sample_rule (evaluateCondition sample_evaluate sample_rule)
    ([equal "a" 1 None] ++ equal "x" 1 None :: [equal "y" 2 None; equal "b" 2 None])
    Any
  = mkComp (Err (UndefinedFact (condition_fact (equal "x" 1 None))))
           (grouping_calls ([equal "a" 1 None] ++ [equal "x" 1 None])).
Proof.
  apply (X10_undefined_fact_names_the_first_offender
           sample_rule sample_engine
           (evaluateCondition sample_evaluate sample_rule) Any
           [equal "a" 1 None] (equal "x" 1 None)
           [equal "y" 2 None; equal "b" 2 None]).
  - reflexivity.
  - intros c' [<-|[]]; discriminate.
  - reflexivity.
Defined.

(** ** Explicit priorities *)

Lemma reduce_filed_by this prio todo : forall done s,
  filed prio done s ->
  (forall c, In c todo ->
     exists p, prio c = Some p /\ result (priority_of this c) = Ok p) ->
  exists s',
    result (reduce (fun sets c =>
              p <- priority_of this c ;; ret (sets_push sets p c)) todo s) = Ok s'
    /\ filed prio (done ++ todo) s'.
Proof.
  induction todo as [|c todo IH]; intros done s Hf Hall; simpl.
  - exists s; rewrite app_nil_r; auto.
  - destruct (Hall c (or_introl eq_refl)) as (p & Hp & Hr).
    destruct (IH (done ++ [c]) (sets_push s p c)) as (s' & Hs' & Hf').
    + apply sets_push_filed; assumption.
    + intros c' Hc'; apply Hall; simpl; auto.
    + exists s'; split; [|rewrite <- app_assoc in Hf'; exact Hf'].
      rewrite (result_bind_ok _ _ (sets_push s p c)).
      * simpl. exact Hs'.
      * rewrite (result_bind_ok _ _ _ Hr); reflexivity.
Qed.

Lemma priority_of_explicit this c p :
  condition_priority c = Some p -> p <> 0 -> priority_of this c = ret p.
Proof.
  intros Hp Hne; unfold priority_of; rewrite Hp.
  destruct (p =? 0) eqn:E; [apply Z.eqb_eq in E; contradiction | reflexivity].
Qed.

(** X11. Siblings that all carry an own, non-zero priority are grouped by
    that priority without the provider being consulted: the grouping makes
    no call and succeeds whether or not an engine is attached and whether or
    not their facts are registered. *)
Theorem X11_explicit_priorities_need_no_provider :
  forall this conds,
    (forall c, In c conds ->
       exists p, condition_priority c = Some p /\ p <> 0) ->
    trace (prioritizeConditions this conds) = []
    /\ exists groups,
         result (prioritizeConditions this conds) = Ok groups
         /\ grouped_by condition_priority conds groups.
Proof.
  intros this conds Hall; split.
  - assert (H : Forall (fun _ => False) (trace (prioritizeConditions this conds))).
    { apply prioritizeConditions_trace_Forall. intros c Hc.
      destruct (Hall c Hc) as (p & Hp & Hne).
      rewrite (priority_of_explicit this c p Hp Hne); constructor. }
    destruct (trace (prioritizeConditions this conds)); [reflexivity|].
    inversion H; contradiction.
  - destruct (reduce_filed_by this condition_priority conds [] [] (filed_nil _))
      as (s & Hs & Hf).
    + intros c Hc. destruct (Hall c Hc) as (p & Hp & Hne).
      exists p; split; [exact Hp|].
      rewrite (priority_of_explicit this c p Hp Hne); reflexivity.
    + simpl in Hf.
      destruct (sorted_keys_filed _ _ _ Hf) as (Hsort & Hkeys & Hmap).
      eexists; split.
      * rewrite prioritizeConditions_eq, (result_bind_ok _ _ _ Hs); reflexivity.
      * eexists; split; [exact Hmap | split; assumption].
Qed.

Lemma X11_witness :
  trace (prioritizeConditions new_Rule
           [equal "x" 1 (Some 2); equal "y" 2 (Some 30); equal "z" 3 (Some 2)]) = []
  /\ exists groups,
       result (prioritizeConditions new_Rule
                 [equal "x" 1 (Some 2); equal "y" 2 (Some 30); equal "z" 3 (Some 2)])
       = Ok groups
       /\ grouped_by condition_priority
            [equal "x" 1 (Some 2); equal "y" 2 (Some 30); equal "z" 3 (Some 2)]
            groups.
Proof.
  apply (X11_explicit_priorities_need_no_provider new_Rule
           [equal "x" 1 (Some 2); equal "y" 2 (Some 30); equal "z" 3 (Some 2)]).
  intros c [<-|[<-|[<-|[]]]]; eexists; (split; [reflexivity | discriminate]).
Defined.

(** ** The groups are a partition *)

Lemma descending_NoDup keys : StronglySorted descending keys -> NoDup keys.
Proof.
  induction 1 as [|k keys Hs IH Hk]; constructor; [|exact IH].
  intros Hin. rewrite Forall_forall in Hk.
  specialize (Hk k Hin). unfold descending in Hk; lia.
Qed.

Lemma concat_one_more (f : Z -> list Condition) c k0 keys :
  NoDup keys -> In k0 keys ->
  Permutation
    (List.concat (map (fun k => if k0 =? k then c :: f k else f k) keys))
    (c :: List.concat (map f keys)).
Proof.
  induction keys as [|k keys IH]; intros Hnd Hin; [destruct Hin|].
  inversion Hnd as [|? ? Hk Hnd']; subst. simpl.
  destruct (Z.eq_dec k0 k) as [->|Hne].
  - rewrite Z.eqb_refl; simpl.
    assert (Hmap : map (fun k' => if k =? k' then c :: f k' else f k') keys
                   = map f keys).
    { apply map_ext_in; intros k' Hk'.
      destruct (k =? k') eqn:E; [|reflexivity].
      apply Z.eqb_eq in E; subst; contradiction. }
    rewrite Hmap; reflexivity.
  - assert (E : (k0 =? k) = false) by (apply Z.eqb_neq; exact Hne).
    rewrite E. destruct Hin as [->|Hin]; [contradiction|].
    rewrite (IH Hnd' Hin). symmetry; apply Permutation_middle.
Qed.

Lemma groups_permutation prio keys conds :
  NoDup keys ->
  (forall c, In c conds -> exists k, prio c = Some k /\ In k keys) ->
  Permutation
    (List.concat (map (fun k => filter (has_priority prio k) conds) keys)) conds.
Proof.
  intros Hnd; induction conds as [|c conds IH]; intros Hall.
  - simpl. clear. induction keys as [|k keys IH]; simpl; [constructor | exact IH].
  - destruct (Hall c (or_introl eq_refl)) as (k0 & Hk0 & Hin).
    assert (Hmap : map (fun k => filter (has_priority prio k) (c :: conds)) keys
                   = map (fun k => if k0 =? k
                                   then c :: filter (has_priority prio k) conds
                                   else filter (has_priority prio k) conds) keys).
    { apply map_ext; intros k; simpl. unfold has_priority at 1; rewrite Hk0.
      reflexivity. }
    rewrite Hmap, (concat_one_more _ c k0 keys Hnd Hin).
    constructor. apply IH. intros c' Hc'; apply Hall; right; exact Hc'.
Qed.

Lemma grouped_partition prio conds groups :
  grouped_by prio conds groups ->
  (forall c, In c conds -> prio c <> None) ->
  Permutation (List.concat groups) conds /\ Forall (fun g => g <> []) groups.
Proof.
  intros (keys & -> & Hsort & Hkeys) Hall; split.
  - apply groups_permutation; [apply descending_NoDup, Hsort|].
    intros c Hc. destruct (prio c) as [k|] eqn:Hk;
      [|exfalso; exact (Hall c Hc Hk)].
    exists k; split; [reflexivity|]. apply Hkeys; exists c; auto.
  - apply Forall_forall; intros g Hg.
    apply in_map_iff in Hg; destruct Hg as (k & <- & Hk).
    apply Hkeys in Hk; destruct Hk as (c & Hc & Hp).
    assert (Hin : In c (filter (has_priority prio k) conds)).
    { apply filter_In; split; [exact Hc|].
      unfold has_priority; rewrite Hp; apply Z.eqb_refl. }
    intros Hnil; rewrite Hnil in Hin; destruct Hin.
Qed.

(** X12. The grouping neither loses nor duplicates a condition: when it
    succeeds, the groups put end to end are a permutation of the sibling
    list, and no group is empty. *)
Theorem X12_groups_partition_the_siblings :
  forall this e conds,
    engine this = Some e ->
    (forall c, In c conds -> effectivePriority e c <> None) ->
    exists groups,
      result (prioritizeConditions this conds) = Ok groups
      /\ Permutation (List.concat groups) conds
      /\ Forall (fun g => g <> []) groups.
Proof.
  intros this e conds He Hall.
  destruct (prioritizeConditions_grouped this e conds He Hall)
    as (groups & Hr & Hg).
  exists groups; split; [exact Hr|].
  exact (grouped_partition _ conds groups Hg Hall).
Qed.

Lemma X12_witness :
  exists groups,
    result (prioritizeConditions sample_rule
              [equal "c" 3 None; equal "a" 1 None; equal "b" 5 (Some 100);
               equal "b" 2 None]) = Ok groups
    /\ Permutation (List.concat groups)
         [equal "c" 3 None; equal "a" 1 None; equal "b" 5 (Some 100);
          equal "b" 2 None]
    /\ Forall (fun g => g <> []) groups.
Proof.
  apply (X12_groups_partition_the_siblings sample_rule sample_engine
           [equal "c" 3 None; equal "a" 1 None; equal "b" 5 (Some 100);
            equal "b" 2 None]).
  - reflexivity.
  - intros c [<-|[<-|[<-|[<-|[]]]]]; discriminate.
Defined.

(** ** Siblings of one priority *)

Lemma single_key (keys : list Z) k :
  NoDup keys -> (forall x, In x keys <-> x = k) -> keys = [k].
Proof.
  intros Hnd Hk. destruct keys as [|a rest].
  - exfalso. apply (proj2 (Hk k) eq_refl).
  - assert (a = k) as -> by (apply Hk; left; reflexivity).
    destruct rest as [|b rest]; [reflexivity|].
    assert (b = k) as -> by (apply Hk; right; left; reflexivity).
    inversion Hnd as [|? ? Hnotin _]; subst. exfalso; apply Hnotin; left; reflexivity.
Qed.

Lemma filter_all {A} (f : A -> bool) (l : list A) :
  (forall x, In x l -> f x = true) -> filter f l = l.
Proof.
  induction l as [|x l IH]; intros H; simpl; [reflexivity|].
  rewrite (H x (or_introl eq_refl)), IH; [reflexivity|].
  intros y Hy; apply H; right; exact Hy.
Qed.

Lemma single_priority_group this e conds k :
  engine this = Some e ->
  conds <> [] ->
  (forall c, In c conds -> effectivePriority e c = Some k) ->
  prioritizeConditions this conds = mkComp (Ok [conds]) (grouping_calls conds).
Proof.
  intros He Hne Hall.
  assert (Hprio : forall c, In c conds -> effectivePriority e c <> None)
    by (intros c Hc; rewrite (Hall c Hc); discriminate).
  destruct (prioritizeConditions_grouped this e conds He Hprio)
    as (groups & Hr & keys & -> & Hsort & Hkeys).
  assert (Hk : keys = [k]).
  { apply single_key; [apply descending_NoDup, Hsort|].
    intros x; rewrite Hkeys; split.
    - intros (c & Hc & Hp). rewrite (Hall c Hc) in Hp; congruence.
    - intros ->. destruct conds as [|c conds]; [contradiction|].
      exists c; split; [left; reflexivity | apply Hall; left; reflexivity]. }
  subst keys; simpl in Hr.
  rewrite filter_all in Hr.
  - rewrite (comp_eta (prioritizeConditions this conds)), Hr.
    rewrite (prioritizeConditions_calls this e conds He Hprio); reflexivity.
  - intros c Hc; unfold has_priority; rewrite (Hall c Hc); apply Z.eqb_refl.
Qed.

(** X13. Siblings that all have the same priority form a single group:
    every one of them is evaluated, whatever the others evaluate to, and the
    outcome is that of the one group (there is nothing to short-circuit). *)
Theorem X13_equal_priorities_evaluate_every_sibling :
  forall this e ev op conds k,
    engine this = Some e ->
    conds <> [] ->
    (forall c, In c conds -> effectivePriority e c = Some k) ->
    result (prioritizeConditions this conds) = Ok [conds]
    /\ result (prioritizeAndRun this ev conds op)
       = result (evaluateConditions ev conds (method_of op))
    /\ trace (prioritizeAndRun this ev conds op)
       = grouping_calls conds ++ flat_map (fun c => trace (ev c)) conds.
Proof.
  intros this e ev op conds k He Hne Hall.
  pose proof (single_priority_group this e conds k He Hne Hall) as Hg.
  split; [rewrite Hg; reflexivity|].
  rewrite (run_reached this ev op conds [] conds [] (grouping_calls conds) Hg);
    [|intros g' []].
  simpl. rewrite !app_nil_r. split; reflexivity.
Qed.

Lemma X13_witness :
  result (prioritizeConditions sample_rule
            [equal "a" 7 None; equal "b" 2 None; equal "c" 3 (Some 10)])
  = Ok [[equal "a" 7 None; equal "b" 2 None; equal "c" 3 (Some 10)]]
  /\ result (prioritizeAndRun sample_rule
               (evaluateCondition sample_evaluate sample_rule)
               [equal "a" 7 None; equal "b" 2 None; equal "c" 3 (Some 10)] All)
     = result (evaluateConditions (evaluateCondition sample_evaluate sample_rule)
                 [equal "a" 7 None; equal "b" 2 None; equal "c" 3 (Some 10)]
                 (method_of All))
  /\ trace (prioritizeAndRun sample_rule
              (evaluateCondition sample_evaluate sample_rule)
              [equal "a" 7 None; equal "b" 2 None; equal "c" 3 (Some 10)] All)
     = grouping_calls [equal "a" 7 None; equal "b" 2 None; equal "c" 3 (Some 10)]
       ++ flat_map (fun c => trace (evaluateCondition sample_evaluate sample_rule c))
            [equal "a" 7 None; equal "b" 2 None; equal "c" 3 (Some 10)].
Proof.
  apply (X13_equal_priorities_evaluate_every_sibling
           sample_rule sample_engine
           (evaluateCondition sample_evaluate sample_rule) All
           [equal "a" 7 None; equal "b" 2 None; equal "c" 3 (Some 10)] 10).
  - reflexivity.
  - discriminate.
  - intros c [<-|[<-|[<-|[]]]]; reflexivity.
Defined.

(** ** The value of a run *)

(** X14. Priorities change the order of the work, not the answer: when no
    sibling fails, a non-empty sibling list evaluates to the boolean "every"
    (under [all]) or "some" (under [any]) of "this sibling's result is
    [true]", whatever the priorities are. *)
Theorem X14_result_is_every_or_some :
  forall this e ev op conds,
    engine this = Some e ->
    conds <> [] ->
    (forall c, In c conds -> effectivePriority e c <> None) ->
    (forall c, In c conds -> exists v, result (ev c) = Ok v) ->
    result (prioritizeAndRun this ev conds op)
    = Ok (VBool (combine op (satisfied ev) conds)).
Proof. exact prioritizeAndRun_boolean. Qed.

Lemma X14_witness :
  result (prioritizeAndRun sample_rule
            (evaluateCondition sample_evaluate sample_rule)
            [equal "c" 3 None; equal "a" 0 (Some 50); equal "b" 2 None] Any)
  = Ok (VBool (combine Any
                 (satisfied (evaluateCondition sample_evaluate sample_rule))
                 [equal "c" 3 None; equal "a" 0 (Some 50); equal "b" 2 None])).
Proof.
  apply (X14_result_is_every_or_some sample_rule sample_engine
           (evaluateCondition sample_evaluate sample_rule) Any
           [equal "c" 3 None; equal "a" 0 (Some 50); equal "b" 2 None]).
  - reflexivity.
  - discriminate.
  - intros c [<-|[<-|[<-|[]]]]; discriminate.
  - intros c [<-|[<-|[<-|[]]]]; eexists; reflexivity.
Defined.

(** X15. The order in which the siblings are listed does not change the
    result: when no sibling fails, two listings of the same conditions
    evaluate to the same value. *)
Theorem X15_listing_order_does_not_change_the_result :
  forall this e ev op conds conds',
    engine this = Some e ->
    Permutation conds conds' ->
    (forall c, In c conds -> effectivePriority e c <> None) ->
    (forall c, In c conds -> exists v, result (ev c) = Ok v) ->
    result (prioritizeAndRun this ev conds op)
    = result (prioritizeAndRun this ev conds' op).
Proof.
  intros this e ev op conds conds' He Hperm Hprio Hev.
  destruct conds as [|c0 conds0] eqn:Hconds.
  - apply Permutation_nil in Hperm; subst; reflexivity.
  - rewrite <- Hconds in *.
    assert (Hne : conds <> []) by (rewrite Hconds; discriminate).
    assert (Hne' : conds' <> []).
    { intros ->. apply Permutation_sym, Permutation_nil in Hperm. contradiction. }
    assert (Hin : forall c, In c conds' -> In c conds)
      by (intros c; apply Permutation_in, Permutation_sym, Hperm).
    rewrite (prioritizeAndRun_boolean this e ev op conds He Hne Hprio Hev).
    rewrite (prioritizeAndRun_boolean this e ev op conds' He Hne'
               (fun c Hc => Hprio c (Hin c Hc)) (fun c Hc => Hev c (Hin c Hc))).
    rewrite (combine_members op (satisfied ev) conds conds'); [reflexivity|].
    intros c; split; [apply Permutation_in, Hperm | apply Hin].
Qed.

Lemma X15_witness :
  result (prioritizeAndRun sample_rule
            (evaluateCondition sample_evaluate sample_rule)
            [equal "c" 3 None; equal "a" 0 None] All)
  = result (prioritizeAndRun sample_rule
              (evaluateCondition sample_evaluate sample_rule)
              [equal "a" 0 None; equal "c" 3 None] All).
Proof.
  apply (X15_listing_order_does_not_change_the_result sample_rule sample_engine
           (evaluateCondition sample_evaluate sample_rule) All
           [equal "c" 3 None; equal "a" 0 None]
           [equal "a" 0 None; equal "c" 3 None]).
  - reflexivity.
  - apply perm_swap.
  - intros c [<-|[<-|[]]]; discriminate.
  - intros c [<-|[<-|[]]]; eexists; reflexivity.
Defined.

Lemma group_step_settles ev op c0 g :
  (exists b, result (group_step ev op c0 g) = Ok (VBool b))
  \/ exists e, result (group_step ev op c0 g) = Err e.
Proof.
  unfold group_step, bind. destruct (result c0) as [v|e]; simpl; [|eauto].
  destruct (is_any op && strict_true v || false)%bool; simpl; [eauto|].
  destruct (is_all op && strict_false v || false)%bool; simpl; [eauto|].
  destruct (result (evaluateConditions ev g (method_of op))) as [v'|e] eqn:Hr;
    [|eauto].
  apply evaluateConditions_result_inv in Hr. destruct Hr as (rs & _ & ->); eauto.
Qed.

Lemma run_settles ev op gs : forall c0,
  ((exists b, result c0 = Ok (VBool b)) \/ exists e, result c0 = Err e) ->
  (exists b, result (fold_left (group_step ev op) gs c0) = Ok (VBool b))
  \/ exists e, result (fold_left (group_step ev op) gs c0) = Err e.
Proof.
  induction gs as [|g gs IH]; intros c0 H; simpl; [exact H|].
  apply IH, group_step_settles.
Qed.

Lemma sets_set_nonempty (s : Sets) k v : sets_set s k v <> [].
Proof.
  destruct s as [|[k' v'] s]; simpl; [discriminate|].
  destruct (k' =? k); discriminate.
Qed.

Lemma reduce_nonempty this todo : forall s s',
  s <> [] ->
  result (reduce (fun sets c =>
            p <- priority_of this c ;; ret (sets_push sets p c)) todo s) = Ok s' ->
  s' <> [].
Proof.
  induction todo as [|c todo IH]; intros s s' Hs Hr; simpl in Hr.
  - injection Hr as <-; exact Hs.
  - apply result_bind_inv in Hr; destruct Hr as (s1 & H1 & Hr).
    apply result_bind_inv in H1; destruct H1 as (p & _ & H1).
    simpl in H1; injection H1 as <-.
    apply (IH (sets_push s p c) s'); [apply sets_set_nonempty | exact Hr].
Qed.

Lemma prioritizeConditions_nonempty this c conds groups :
  result (prioritizeConditions this (c :: conds)) = Ok groups -> groups <> [].
Proof.
  rewrite prioritizeConditions_eq; intros Hr.
  apply result_bind_inv in Hr; destruct Hr as (s & Hs & Hr).
  simpl in Hr; injection Hr as <-.
  simpl in Hs. apply result_bind_inv in Hs; destruct Hs as (s1 & H1 & Hs).
  apply result_bind_inv in H1; destruct H1 as (p & _ & H1).
  simpl in H1; injection H1 as <-.
  assert (Hne : s <> [])
    by (apply (reduce_nonempty this conds (sets_push [] p c) s);
        [apply sets_set_nonempty | exact Hs]).
  intros Hnil. apply map_eq_nil in Hnil.
  pose proof (Array_sort_perm (fun a b : Z => if a >? b then -1 else 1)
                (Object_keys s)) as Hsort.
  rewrite Hnil in Hsort. apply Permutation_nil in Hsort.
  pose proof (Object_keys_perm s) as Hkeys.
  rewrite Hsort in Hkeys. apply Permutation_nil in Hkeys.
  destruct s; [contradiction | discriminate].
Qed.

(** X16. What a run can fulfil with: [undefined] for an empty sibling list,
    and a boolean for any other - never another value. *)
Theorem X16_run_fulfils_with_a_boolean_or_undefined :
  forall this ev conds op v,
    result (prioritizeAndRun this ev conds op) = Ok v ->
    (conds = [] /\ v = VUndefined) \/ (conds <> [] /\ exists b, v = VBool b).
Proof.
  intros this ev conds op v Hr.
  destruct conds as [|c conds].
  - left; split; [reflexivity|]. simpl in Hr; injection Hr as <-; reflexivity.
  - right; split; [discriminate|].
    rewrite prioritizeAndRun_eq in Hr.
    apply result_bind_inv in Hr; destruct Hr as (groups & Hg & Hr).
    pose proof (prioritizeConditions_nonempty this c conds groups Hg) as Hne.
    destruct groups as [|g gs]; [contradiction|]. simpl in Hr.
    destruct (run_settles ev op gs _
                (group_step_settles ev op (Promise_resolve VUndefined) g))
      as [(b & Hb)|(e & He)]; rewrite Hr in *; [|discriminate].
    injection Hb as ->; eauto.
Qed.

Lemma X16_witness :
  ([equal "a" 1 (Some 3); Node Any [] (Some 2)] = [] /\ VBool false = VUndefined)
  \/ ([equal "a" 1 (Some 3); Node Any [] (Some 2)] <> []
      /\ exists b, VBool false = VBool b).
Proof.
  apply (X16_run_fulfils_with_a_boolean_or_undefined sample_rule
           (evaluateCondition sample_evaluate sample_rule)
           [equal "a" 1 (Some 3); Node Any [] (Some 2)] All (VBool false)).
  reflexivity.
Defined.

(** X17. A failure is never turned into a boolean: when a group that is
    reached has a member whose evaluation fails, the run fails with the
    error of a member of that group, the members of the group have all been
    started, and no later group is. *)
Theorem X17_failure_in_a_group_fails_the_run :
  forall this ev op conds pre g post t0 err,
    prioritizeConditions this conds = mkComp (Ok (pre ++ g :: post)) t0 ->
    (forall g', In g' pre ->
       result (evaluateConditions ev g' (method_of op)) = Ok (undecided op)) ->
    result (evaluateConditions ev g (method_of op)) = Err err ->
    prioritizeAndRun this ev conds op
    = mkComp (Err err)
             (t0 ++ flat_map (fun c => trace (ev c)) (List.concat (pre ++ [g])))
    /\ exists c, In c g /\ result (ev c) = Err err.
Proof.
  intros this ev op conds pre g post t0 err Hgroups Hpre Hg; split.
  - rewrite (run_reached this ev op conds pre g post t0 Hgroups Hpre); simpl.
    rewrite Hg, run_err; reflexivity.
  - unfold evaluateConditions in Hg.
    apply result_bind_err_inv in Hg; destruct Hg as [Hg|(rs & _ & Hg)];
      [|discriminate Hg].
    unfold Promise_all in Hg; simpl in Hg. rewrite map_map in Hg.
    apply all_results_err, in_map_iff in Hg. destruct Hg as (c & Hc & Hin).
    exists c; auto.
Qed.

Lemma X17_witness :
  prioritizeAndRun sample_rule (evaluateCondition sample_evaluate sample_rule)
    [equal "c" 3 None; equal "a" 1 None; equal "q" 5 (Some 10)] All
  = mkComp (Err (External (VStr "no such fact")))
           ([GetFact (VStr "c"); GetFact (VStr "a")]
            ++ flat_map (fun c => trace (evaluateCondition sample_evaluate sample_rule c))
                 (List.concat ([] ++ [[equal "a" 1 None; equal "q" 5 (Some 10)]])))
  /\ exists c, In c [equal "a" 1 None; equal "q" 5 (Some 10)]
               /\ result (evaluateCondition sample_evaluate sample_rule c)
                  = Err (External (VStr "no such fact")).
Proof.
  apply (X17_failure_in_a_group_fails_the_run sample_rule
           (evaluateCondition sample_evaluate sample_rule) All
           [equal "c" 3 None; equal "a" 1 None; equal "q" 5 (Some 10)]
           [] [equal "a" 1 None; equal "q" 5 (Some 10)] [[equal "c" 3 None]]
           [GetFact (VStr "c"); GetFact (VStr "a")]
           (External (VStr "no such fact"))).
  - reflexivity.
  - intros g' [].
  - reflexivity.
Defined.

(** ** The value of a tree *)

Lemma forallb_ext_in {A} (f g : A -> bool) (l : list A) :
  (forall x, In x l -> f x = g x) -> forallb f l = forallb g l.
Proof.
  induction l as [|x l IH]; intros H; simpl; [reflexivity|].
  rewrite (H x (or_introl eq_refl)), IH; [reflexivity|].
  intros y Hy; apply H; right; exact Hy.
Qed.

Lemma existsb_ext_in {A} (f g : A -> bool) (l : list A) :
  (forall x, In x l -> f x = g x) -> existsb f l = existsb g l.
Proof.
  induction l as [|x l IH]; intros H; simpl; [reflexivity|].
  rewrite (H x (or_introl eq_refl)), IH; [reflexivity|].
  intros y Hy; apply H; right; exact Hy.
Qed.

Lemma sound_children (P : Condition -> Prop) (Q : Condition -> Prop) cs :
  fold_right (fun c' rest => (P c' /\ Q c') /\ rest) True cs ->
  forall c', In c' cs -> P c' /\ Q c'.
Proof.
  induction cs as [|c cs IH]; intros H c' Hin; [destruct Hin|].
  destruct H as (Hc & Hrest). destruct Hin as [<-|Hin]; [exact Hc | auto].
Qed.

Lemma evaluateCondition_truth cev this e leaf :
  engine this = Some e ->
  forall n c, (depth c < n)%nat ->
    sound_tree cev this e leaf c ->
    result (evaluateCondition cev this c) = Ok (VBool (truth leaf c)).
Proof.
  intros He. induction n as [|n IH]; intros c Hn Hsound; [lia|].
  destruct c as [f p o v pr | op cs pr]; [exact Hsound|].
  destruct Hsound as (Hne & Hid & Hcs).
  pose proof (sound_children _ _ cs Hcs) as Hchild.
  assert (Hval : forall c', In c' cs ->
            result (evaluateCondition cev this c') = Ok (VBool (truth leaf c'))).
  { intros c' Hc'. apply IH; [|apply (Hchild c' Hc')].
    pose proof (depth_child op cs pr c' Hc') as Hd. lia. }
  assert (Hrun : result (prioritizeAndRun this (evaluateCondition cev this) cs op)
                 = Ok (VBool (truth leaf (Node op cs pr)))).
  { rewrite (prioritizeAndRun_boolean this e _ op cs He Hne).
    - f_equal; f_equal. unfold combine.
      assert (Hsat : forall c', In c' cs ->
                satisfied (evaluateCondition cev this) c' = truth leaf c').
      { intros c' Hc'; unfold satisfied; rewrite (Hval c' Hc'); simpl.
        destruct (truth leaf c'); reflexivity. }
      destruct op; simpl;
        [apply forallb_ext_in | apply existsb_ext_in]; exact Hsat.
    - intros c' Hc'; apply (Hchild c' Hc').
    - intros c' Hc'; rewrite (Hval c' Hc'); eauto. }
  rewrite evaluateCondition_node, (result_bind_ok _ _ _ Hrun); simpl.
  apply Hid.
Qed.

(** X18. On a tree of any depth that evaluates without failure (leaves
    that resolve to booleans, non-empty boolean nodes whose children can all
    be grouped and whose evaluator hands a boolean back unchanged),
    [evaluate] fulfils with the boolean the tree denotes: "every" at an
    [all] node, "some" at an [any] node, whatever the priorities. *)
Theorem X18_evaluate_computes_the_truth_of_the_tree :
  forall cev this e leaf op cs pr,
    engine this = Some e ->
    conditions this = Some (Node op cs pr) ->
    sound_tree cev this e leaf (Node op cs pr) ->
    result (evaluate cev this) = Ok (VBool (truth leaf (Node op cs pr))).
Proof.
  intros cev this e leaf op cs pr He Hroot (Hne & _ & Hcs).
  pose proof (sound_children _ _ cs Hcs) as Hchild.
  assert (Hval : forall c', In c' cs ->
            result (evaluateCondition cev this c') = Ok (VBool (truth leaf c'))).
  { intros c' Hc'.
    apply (evaluateCondition_truth cev this e leaf He (S (depth c')) c');
      [lia | apply (Hchild c' Hc')]. }
  assert (Hsat : forall c', In c' cs ->
            satisfied (evaluateCondition cev this) c' = truth leaf c').
  { intros c' Hc'; unfold satisfied; rewrite (Hval c' Hc'); simpl.
    destruct (truth leaf c'); reflexivity. }
  assert (Hrun : result (prioritizeAndRun this (evaluateCondition cev this) cs op)
                 = Ok (VBool (truth leaf (Node op cs pr)))).
  { rewrite (prioritizeAndRun_boolean this e _ op cs He Hne).
    - f_equal; f_equal. unfold combine.
      destruct op; simpl;
        [apply forallb_ext_in | apply existsb_ext_in]; exact Hsat.
    - intros c' Hc'; apply (Hchild c' Hc').
    - intros c' Hc'; rewrite (Hval c' Hc'); eauto. }
  unfold evaluate; rewrite Hroot. destruct op; exact Hrun.
Qed.

Lemma X18_witness :
  result (evaluate sample_evaluate sample_tree_rule)
  = Ok (VBool (truth (satisfied (evaluateCondition sample_evaluate sample_tree_rule))
                     sample_tree)).
Proof.
  apply (X18_evaluate_computes_the_truth_of_the_tree
           sample_evaluate sample_tree_rule sample_engine
           (satisfied (evaluateCondition sample_evaluate sample_tree_rule))
           All
           [Node Any [equal "a" 0 None;
                      Node All [equal "b" 2 None; equal "c" 3 (Some 7)] (Some 2)]
                 (Some 1);
            equal "c" 3 None]
           None).
  - reflexivity.
  - reflexivity.
  - simpl; repeat split; try discriminate; intros [|]; reflexivity.
Defined.

(** ** No sibling is evaluated twice *)

Lemma run_evaluates_a_prefix ev op gs : forall c0,
  exists k,
    trace (fold_left (group_step ev op) gs c0)
    = trace c0 ++ flat_map (fun c => trace (ev c)) (List.concat (firstn k gs)).
Proof.
  induction gs as [|g gs IH]; intros c0.
  - exists 0%nat; simpl; rewrite app_nil_r; reflexivity.
  - rewrite (comp_eta c0). destruct (result c0) as [v|e] eqn:Hc0.
    + destruct (continuing op v) eqn:Hv.
      * simpl. rewrite (group_step_run ev op v (trace c0) g Hv).
        destruct (IH (mkComp (result (evaluateConditions ev g (method_of op)))
                             (trace c0 ++ trace (evaluateConditions ev g (method_of op)))))
          as (k & Hk).
        exists (S k); rewrite Hk; simpl.
        rewrite evaluateConditions_trace, flat_map_app, app_assoc; reflexivity.
      * apply not_continuing in Hv; subst v.
        exists 0%nat. rewrite run_skip; simpl; rewrite app_nil_r; reflexivity.
    + exists 0%nat. rewrite run_err; simpl; rewrite app_nil_r; reflexivity.
Qed.

Lemma concat_firstn_skipn {A} k (l : list (list A)) :
  List.concat (firstn k l) ++ List.concat (skipn k l) = List.concat l.
Proof. rewrite <- List.concat_app, firstn_skipn; reflexivity. Qed.

(** X19. A run evaluates every sibling at most once: the calls it makes
    are those of the grouping followed by the calls of the evaluation of
    some of the siblings, each taken once; the siblings left out are those
    of the groups that were not reached. *)
Theorem X19_each_sibling_is_evaluated_at_most_once :
  forall this e ev op conds,
    engine this = Some e ->
    (forall c, In c conds -> effectivePriority e c <> None) ->
    exists evaluated skipped,
      Permutation (evaluated ++ skipped) conds
      /\ trace (prioritizeAndRun this ev conds op)
         = grouping_calls conds ++ flat_map (fun c => trace (ev c)) evaluated.
Proof.
  intros this e ev op conds He Hall.
  destruct (prioritizeConditions_grouped this e conds He Hall)
    as (groups & Hr & Hg).
  destruct (grouped_partition _ conds groups Hg Hall) as (Hperm & _).
  destruct (run_evaluates_a_prefix ev op groups (Promise_resolve VUndefined))
    as (k & Hk).
  exists (List.concat (firstn k groups)), (List.concat (skipn k groups)); split.
  - rewrite concat_firstn_skipn; exact Hperm.
  - rewrite prioritizeAndRun_eq, (result_bind_ok _ _ groups Hr); simpl.
    rewrite Hk, (prioritizeConditions_calls this e conds He Hall); reflexivity.
Qed.

Lemma X19_witness :
  exists evaluated skipped,
    Permutation (evaluated ++ skipped)
      [equal "c" 3 None; equal "a" 1 None; equal "b" 5 (Some 100); equal "b" 2 None]
    /\ trace (prioritizeAndRun sample_rule
                (evaluateCondition sample_evaluate sample_rule)
                [equal "c" 3 None; equal "a" 1 None; equal "b" 5 (Some 100);
                 equal "b" 2 None] Any)
       = grouping_calls [equal "c" 3 None; equal "a" 1 None;
                         equal "b" 5 (Some 100); equal "b" 2 None]
         ++ flat_map (fun c => trace (evaluateCondition sample_evaluate sample_rule c))
              evaluated.
Proof.
  apply (X19_each_sibling_is_evaluated_at_most_once sample_rule sample_engine
           (evaluateCondition sample_evaluate sample_rule) Any
           [equal "c" 3 None; equal "a" 1 None; equal "b" 5 (Some 100);
            equal "b" 2 None]).
  - reflexivity.
  - intros c [<-|[<-|[<-|[<-|[]]]]]; discriminate.
Defined.

(** ** A priority given to the constructor *)

Section GivenPriority.

Variable RawConditions : Type.
Variable hasOwnProperty : RawConditions -> string -> bool.
Variable newCondition : RawConditions -> Result Condition.
Variable JSON_parse : string -> Result (option (Options RawConditions)).

(** X20. A truthy priority option goes through [setPriority]: a rule that
    is constructed holds what [parseInt] read of it, and the constructor
    fails when that is an integer below 1. *)
Theorem X20_constructor_validates_a_truthy_priority :
  forall o,
    truthy (opt_priority o) = true ->
    (forall r,
       constructor hasOwnProperty newCondition JSON_parse (inr (Some o)) = Ok r ->
       priority r = parseInt (opt_priority o))
    /\ (forall z,
          parseInt (opt_priority o) = VNum z -> z <= 0 ->
          exists e,
            constructor hasOwnProperty newCondition JSON_parse (inr (Some o))
            = Err e).
Proof.
  intros o Ht; split.
  - intros r Hr.
    destruct (constructor_object_ok RawConditions hasOwnProperty newCondition
                JSON_parse (Some o) r Hr) as (this1 & this2 & _ & Hp & ev & Hev).
    unfold js_or in Hp; rewrite Ht in Hp.
    destruct (setPriority_stores this1 _ this2 Hp) as (Hprio & _).
    injection Hev as <-. exact Hprio.
  - intros z Hz Hle; unfold constructor, rbind, js_or; rewrite Ht.
    destruct (match opt_conditions o with
              | Some c => setConditions hasOwnProperty newCondition new_Rule c
              | None => Ok new_Rule
              end) as [this|e]; [|eauto].
    rewrite (setPriority_rejects this (opt_priority o) z Hz Hle); eauto.
Qed.

End GivenPriority.

Lemma X20_witness :
  (forall r,
     constructor sample_hasOwnProperty sample_newCondition sample_JSON_parse
       (inr (Some (mkOptions None (VStr "-1") None))) = Ok r ->
     priority r = parseInt (opt_priority (mkOptions (RawConditions:=Condition)
                                            None (VStr "-1") None)))
  /\ (forall z,
        parseInt (opt_priority (mkOptions (RawConditions:=Condition)
                                  None (VStr "-1") None)) = VNum z ->
        z <= 0 ->
        exists e,
          constructor sample_hasOwnProperty sample_newCondition sample_JSON_parse
            (inr (Some (mkOptions None (VStr "-1") None))) = Err e).
Proof.
  apply (X20_constructor_validates_a_truthy_priority
           Condition sample_hasOwnProperty sample_newCondition sample_JSON_parse
           (mkOptions None (VStr "-1") None)).
  reflexivity.
Defined.
